(** * gosummarize: a shallow embedding of the exported-API summarizer

    The program walks a directory tree, parses every Go file it finds and
    prints the exported declarations of each one.  This development embeds
    the variant with the [-t] flag (the one whose tests call
    [findGoFiles(dir, ignoreTests)]): [findGoFiles], [summarizeFile],
    [processDeclaration] and the body of [main].

    What the program takes from the Go standard library is modelled as
    follows.
    - [strings.HasPrefix], [HasSuffix], [TrimPrefix], [TrimSpace] and
      [token.IsExported] are written out on byte strings.  [TrimSpace] and
      [IsExported] look at ASCII only: a name or a doc comment is taken to
      start and end with ASCII characters.
    - [go/ast] nodes are inductive types with the fields the program reads.
    - [go/printer] and [go/parser] are parameters of the summarizer
      ([Fprint], [ParseFile]); no theorem depends on what they return.
      [goPrint] is a sample printer used to run examples.
    - [filepath.Walk] is a recursive function over a directory tree.
    - standard output is the list of the strings written so far, one per
      [fmt.Printf] / [fmt.Println] call; [contents] is the byte stream. *)

From Stdlib Require Import String Ascii List Bool Arith Lia.
Import ListNotations.
Set Warnings "-register-all".
Open Scope list_scope.
Open Scope string_scope.

(* ================================================================= *)
(** ** Strings *)

Module Strings.

(** The characters the format strings of the program spell as escapes. *)
Definition nl : string := String (ascii_of_nat 10) EmptyString.
Definition tab : string := String (ascii_of_nat 9) EmptyString.

(** [strings.HasPrefix]: [len(s) >= len(prefix) && s[:len(prefix)] == prefix]. *)
Definition HasPrefix (s prefix : string) : bool :=
  Nat.leb (String.length prefix) (String.length s)
  && (substring 0 (String.length prefix) s =? prefix).

(** [strings.HasSuffix]:
    [len(s) >= len(suffix) && s[len(s)-len(suffix):] == suffix]. *)
Definition HasSuffix (s suffix : string) : bool :=
  Nat.leb (String.length suffix) (String.length s)
  && (substring (String.length s - String.length suffix)
                (String.length suffix) s =? suffix).

(** [strings.TrimPrefix]: [s[len(prefix):]] when [s] has the prefix, else [s]. *)
Definition TrimPrefix (s prefix : string) : string :=
  if HasPrefix s prefix
  then substring (String.length prefix)
                 (String.length s - String.length prefix) s
  else s.

(** White space as [strings.TrimSpace] sees it on ASCII input:
    tab, newline, vertical tab, form feed, carriage return, space. *)
Definition isSpace (c : ascii) : bool :=
  let n := nat_of_ascii c in
  (Nat.leb 9 n && Nat.leb n 13) || Nat.eqb n 32.

Fixpoint trimLeft (s : string) : string :=
  match s with
  | EmptyString => EmptyString
  | String c s' => if isSpace c then trimLeft s' else s
  end.

Fixpoint trimRight (s : string) : string :=
  match s with
  | EmptyString => EmptyString
  | String c s' =>
      match trimRight s' with
      | EmptyString => if isSpace c then EmptyString else String c EmptyString
      | r => String c r
      end
  end.

(** [strings.TrimSpace]: leading and trailing white space removed. *)
Definition TrimSpace (s : string) : string := trimRight (trimLeft s).

(** [s] is not the empty string. *)
Definition nonEmpty (s : string) : bool := negb (s =? EmptyString).

End Strings.
Import Strings.

(* ================================================================= *)
(** ** go/token *)

Module Token.

(** The keywords a general declaration can carry. *)
Inductive Token : Type := IMPORT | CONST | TYPE | VAR.

Definition Token_eqb (a b : Token) : bool :=
  match a, b with
  | IMPORT, IMPORT | CONST, CONST | TYPE, TYPE | VAR, VAR => true
  | _, _ => false
  end.

Definition isUpper (c : ascii) : bool :=
  let n := nat_of_ascii c in Nat.leb 65 n && Nat.leb n 90.

(** [token.IsExported]: the name begins with an upper-case letter. *)
Definition IsExported (name : string) : bool :=
  match name with
  | EmptyString => false
  | String c _ => isUpper c
  end.

End Token.
Import Token.

(* ================================================================= *)
(** ** go/ast *)

Module Ast.

(** A comment group stands for the text [Text()] returns for it. *)
Record CommentGroup : Type := mkCommentGroup { CommentGroup_Text : string }.

Record Ident : Type := mkIdent { Ident_Name : string }.

Definition Ident_IsExported (id : Ident) : bool := IsExported (Ident_Name id).

(** Expressions and types, with the field lists nested in them.  A nil
    [*FieldList] or [*CommentGroup] is [None]; an [Expr] is never nil. *)
Inductive Expr : Type :=
| IdentExpr (id : Ident)
| BasicLit (Value : string)
| StarExpr (X : Expr)
| SelectorExpr (X : Expr) (Sel : Ident)
| ArrayType (Len : option Expr) (Elt : Expr)
| MapType (Key : Expr) (Value : Expr)
| CallExpr (Fun : Expr) (Args : list Expr)
| FuncType (Params : FieldList) (Results : option FieldList)
| InterfaceType (Methods : FieldList)
| StructType (Fields : option FieldList)
with FieldList : Type :=
| mkFieldList (List : list Field)
with Field : Type :=
| mkField (Doc : option CommentGroup) (Names : list Ident) (Type_ : Expr).

Definition FieldList_List (l : FieldList) : list Field :=
  match l with mkFieldList fs => fs end.

Definition Field_Doc (f : Field) : option CommentGroup :=
  match f with mkField d _ _ => d end.
Definition Field_Names (f : Field) : list Ident :=
  match f with mkField _ ns _ => ns end.
Definition Field_Type (f : Field) : Expr :=
  match f with mkField _ _ t => t end.

Record FuncDecl : Type := mkFuncDecl {
  FuncDecl_Doc : option CommentGroup;
  FuncDecl_Recv : option FieldList;
  FuncDecl_Name : Ident;
  FuncDecl_Type : Expr  (* the *FuncType of the declaration *)
}.

Record TypeSpec : Type := mkTypeSpec {
  TypeSpec_Name : Ident;
  TypeSpec_Type : Expr
}.

Record ValueSpec : Type := mkValueSpec {
  ValueSpec_Names : list Ident;
  ValueSpec_Type : option Expr;
  ValueSpec_Values : list Expr
}.

Inductive Spec : Type :=
| ImportSpec (path : string)
| TypeSpec_ (s : TypeSpec)
| ValueSpec_ (s : ValueSpec).

Record GenDecl : Type := mkGenDecl {
  GenDecl_Doc : option CommentGroup;
  GenDecl_Tok : Token;
  GenDecl_Specs : list Spec
}.

Inductive Decl : Type :=
| BadDecl
| FuncDecl_ (fn : FuncDecl)
| GenDecl_ (gen : GenDecl).

Record File : Type := mkFile { File_Decls : list Decl }.

End Ast.
Import Ast.

(* ================================================================= *)
(** ** Standard output and panics *)

Module IO.

(** Everything written to standard output so far, one entry per write. *)
Definition Stdout : Type := list string.

(** The bytes on standard output. *)
Definition contents (out : Stdout) : string := String.concat EmptyString out.

Inductive Outcome (A : Type) : Type :=
| Ret (a : A)
| Panic (msg : string).
Arguments Ret {A} a.
Arguments Panic {A} msg.

(** A computation that writes to standard output and returns or panics. *)
Definition IO (A : Type) : Type := Stdout -> Stdout * Outcome A.

Definition ret {A} (a : A) : IO A := fun out => (out, Ret a).

Definition bind {A B} (m : IO A) (k : A -> IO B) : IO B :=
  fun out =>
    match m out with
    | (out', Ret a) => k a out'
    | (out', Panic msg) => (out', Panic msg)
    end.

Definition panic {A} (msg : string) : IO A := fun out => (out, Panic msg).

(** [fmt.Printf] with its format already filled in. *)
Definition Printf (s : string) : IO unit := fun out => ((out ++ [s])%list, Ret tt).

(** [fmt.Println(args)]: the text and a newline. *)
Definition Println (s : string) : IO unit := Printf (s ++ nl).

(** [for _, x := range xs { body(x) }]. *)
Fixpoint forRange {A} (xs : list A) (body : A -> IO unit) : IO unit :=
  match xs with
  | [] => ret tt
  | x :: xs' => bind (body x) (fun _ => forRange xs' body)
  end.

(** [for i, x := range xs { body(i, x) }], counting from [i]. *)
Fixpoint forRangeFrom {A} (i : nat) (xs : list A) (body : nat -> A -> IO unit)
  : IO unit :=
  match xs with
  | [] => ret tt
  | x :: xs' => bind (body i x) (fun _ => forRangeFrom (S i) xs' body)
  end.

(** [xs[i]], which panics out of range. *)
Definition index {A} (xs : list A) (i : nat) : IO A :=
  match nth_error xs i with
  | Some x => ret x
  | None => panic "runtime error: index out of range"
  end.

End IO.
Import IO.

Notation "x <- m ;; k" := (bind m (fun x => k))
  (at level 61, m at next level, right associativity).
Notation "m ;;; k" := (bind m (fun _ => k))
  (at level 61, right associativity).

(* ================================================================= *)
(** ** path/filepath *)

Module FilePath.

(** The text of an [error]. *)
Definition error : Type := string.

(** What [filepath.Walk] finds at a path: something that is not a
    directory, a directory with its entries in the order [readDirNames]
    returns them, or an entry that [os.Lstat] or the directory read fails
    on. *)
Inductive Node : Type :=
| NotDir
| Dir (entries : list (string * Node))
| Failing (err : error).

Record FileInfo : Type := mkFileInfo { IsDir : bool }.

(** [filepath.Join] of a directory path and an entry name. *)
Definition Join (dir name : string) : string := dir ++ "/" ++ name.

(** A [filepath.WalkFunc] over the variables [S] its closure captures. *)
Definition WalkFunc (S : Type) : Type :=
  string -> FileInfo -> option error -> S -> S * option error.

(** [filepath.walk]: the callback runs on the node, then on the entries
    of a directory in order; the first error the callback returns ends the
    walk.  On a failing entry the callback gets the error, and the info it
    gets with it is not looked at by the callback of this program, which
    returns the error at once and never returns [SkipDir]. *)
Fixpoint walk {S} (walkFn : WalkFunc S) (path : string) (n : Node) (s : S)
  : S * option error :=
  match n with
  | NotDir => walkFn path (mkFileInfo false) None s
  | Failing e => walkFn path (mkFileInfo true) (Some e) s
  | Dir entries =>
      match walkFn path (mkFileInfo true) None s with
      | (s1, Some e) => (s1, Some e)
      | (s1, None) =>
          (fix each (es : list (string * Node)) (s : S) : S * option error :=
             match es with
             | [] => (s, None)
             | (name, child) :: es' =>
                 match walk walkFn (Join path name) child s with
                 | (s', Some e) => (s', Some e)
                 | (s', None) => each es' s'
                 end
             end) entries s1
      end
  end.

(** The loop of [walk] over the entries of the directory at [path]. *)
Definition walkEntries {S} (walkFn : WalkFunc S) (path : string)
  : list (string * Node) -> S -> S * option error :=
  fix each (es : list (string * Node)) (s : S) : S * option error :=
    match es with
    | [] => (s, None)
    | (name, child) :: es' =>
        match walk walkFn (Join path name) child s with
        | (s', Some e) => (s', Some e)
        | (s', None) => each es' s'
        end
    end.

(** [filepath.Walk(root, fn)], [fsys root] being what lies at [root]. *)
Definition Walk {S} (fsys : string -> Node) (root : string)
  (walkFn : WalkFunc S) (s : S) : S * option error :=
  walk walkFn root (fsys root) s.

End FilePath.
Import FilePath.

(* ================================================================= *)
(** ** The program *)

(** [findGoFiles]: the closure passed to [filepath.Walk], over its captured
    variable [files]. *)
Definition findGoFiles_walkFn (ignoreTests : bool) : WalkFunc (list string) :=
  fun path info err files =>
    match err with
    | Some e => (files, Some e)
    | None =>
        if negb (IsDir info) && HasSuffix path ".go" then
          if ignoreTests && HasSuffix path "_test.go" then (files, None)
          else ((files ++ [path])%list, None)
        else (files, None)
    end.

(** [findGoFiles(root, ignoreTests)] returns [(files, err)]. *)
Definition findGoFiles (fsys : string -> Node) (root : string)
  (ignoreTests : bool) : list string * option error :=
  Walk fsys root (findGoFiles_walkFn ignoreTests) [].

(** What [parser.ParseFile] returns for a path: a syntax tree, or an error
    (the program looks at the error first). *)
Inductive ParseResult : Type :=
| Parsed (file : File)
| ParseError (err : error).

Section Summarizer.

(** [printer.Fprint] into a fresh buffer, then [buf.String()]. *)
Variable Fprint : Expr -> string.

(** [parser.ParseFile(fset, filePath, nil, parser.ParseComments)]. *)
Variable ParseFile : string -> ParseResult.

(** What lies at a path of the file system. *)
Variable fsys : string -> Node.

Definition docText (doc : option CommentGroup) : string :=
  match doc with
  | Some d => CommentGroup_Text d
  | None => EmptyString
  end.

(** The doc line: four blanks, the trimmed doc text and a newline, written
    when the doc text is not empty. *)
Definition printDoc (doc : string) : IO unit :=
  if nonEmpty doc then Printf ("    " ++ TrimSpace doc ++ nl) else ret tt.

(** The [*ast.FuncDecl] branch of [processDeclaration]. *)
Definition processFuncDecl (fn : FuncDecl) : IO unit :=
  if Ident_IsExported (FuncDecl_Name fn) then
    let doc := docText (FuncDecl_Doc fn) in
    let signature := Fprint (FuncDecl_Type fn) in
    let signature := TrimPrefix signature "func" in
    (match FuncDecl_Recv fn with
     | Some recv =>
         recvList <- index (FieldList_List recv) 0 ;;
         let recvType := Fprint (Field_Type recvList) in
         let recvVarName :=
           match Field_Names recvList with
           | n :: _ => Ident_Name n
           | [] => EmptyString
           end in
         if nonEmpty recvVarName then
           Printf ("func (" ++ recvVarName ++ " " ++ recvType ++ ") "
                   ++ Ident_Name (FuncDecl_Name fn) ++ signature ++ nl)
         else
           Printf ("func (" ++ recvType ++ ") "
                   ++ Ident_Name (FuncDecl_Name fn) ++ signature ++ nl)
     | None =>
         Printf ("func " ++ Ident_Name (FuncDecl_Name fn) ++ signature ++ nl)
     end) ;;;
    printDoc doc ;;;
    Println EmptyString
  else ret tt.

(** The body of the loop over [structType.Fields.List]. *)
Definition processField (field : Field) : IO unit :=
  match Field_Names field with
  | n0 :: _ =>
      if Ident_IsExported n0 then
        let fieldType := Fprint (Field_Type field) in
        (match Field_Doc field with
         | Some d =>
             if nonEmpty (CommentGroup_Text d) then
               let fieldDoc := TrimSpace (CommentGroup_Text d) in
               Printf (tab ++ "// " ++ fieldDoc ++ nl)
             else ret tt
         | None => ret tt
         end) ;;;
        Printf (tab ++ Ident_Name n0 ++ tab ++ fieldType ++ nl)
      else ret tt
  | [] => ret tt
  end.

(** The [*ast.TypeSpec] case of the loop over [gen.Specs]. *)
Definition processTypeSpec (gen : GenDecl) (s : TypeSpec) : IO unit :=
  if Ident_IsExported (TypeSpec_Name s) then
    let doc := docText (GenDecl_Doc gen) in
    (match TypeSpec_Type s with
     | StructType (Some fields) =>
         Printf ("type " ++ Ident_Name (TypeSpec_Name s) ++ " struct {" ++ nl) ;;;
         forRange (FieldList_List fields) processField ;;;
         Printf ("}" ++ nl)
     | t =>
         let typeDefinition := Fprint t in
         Printf ("type " ++ Ident_Name (TypeSpec_Name s) ++ " "
                 ++ typeDefinition ++ nl)
     end) ;;;
    printDoc doc ;;;
    Println EmptyString
  else ret tt.

(** The body of the loop over [s.Names] in the [*ast.ValueSpec] case. *)
Definition processValueName (gen : GenDecl) (s : ValueSpec)
  (i : nat) (name : Ident) : IO unit :=
  if Ident_IsExported name then
    let doc := docText (GenDecl_Doc gen) in
    let declType :=
      if Token_eqb (GenDecl_Tok gen) CONST then "const" else "var" in
    let typeStr :=
      match ValueSpec_Type s with
      | Some t => " " ++ Fprint t
      | None => EmptyString
      end in
    (* i < len(s.Values); an element of Values is never nil here *)
    let valueStr :=
      match nth_error (ValueSpec_Values s) i with
      | Some v => " = " ++ Fprint v
      | None => EmptyString
      end in
    Printf (declType ++ " " ++ Ident_Name name ++ typeStr ++ valueStr ++ nl) ;;;
    printDoc doc ;;;
    Println EmptyString
  else ret tt.

Definition processValueSpec (gen : GenDecl) (s : ValueSpec) : IO unit :=
  forRangeFrom 0 (ValueSpec_Names s) (processValueName gen s).

(** [processDeclaration(decl, file, fset)]. *)
Definition processDeclaration (decl : Decl) : IO unit :=
  match decl with
  | FuncDecl_ fn => processFuncDecl fn
  | GenDecl_ gen =>
      forRange (GenDecl_Specs gen) (fun spec =>
        match spec with
        | TypeSpec_ s => processTypeSpec gen s
        | ValueSpec_ s => processValueSpec gen s
        | ImportSpec _ => ret tt
        end)
  | BadDecl => ret tt
  end.

(** [summarizeFile(filePath)] returns the error, [None] for nil. *)
Definition summarizeFile (filePath : string) : IO (option error) :=
  match ParseFile filePath with
  | ParseError err =>
      ret (Some ("error parsing " ++ filePath ++ ": " ++ err))
  | Parsed file =>
      Printf ("<<<FILE_START>>> " ++ filePath ++ nl ++ nl) ;;;
      forRange (File_Decls file) processDeclaration ;;;
      Printf ("<<<FILE_END>>> " ++ filePath ++ nl ++ nl) ;;;
      ret None
  end.

(** The loop of [main] over the files found. *)
Definition summarizeAll (files : list string) : IO unit :=
  forRange files (fun file =>
    err <- summarizeFile file ;;
    match err with
    | Some e => Println e
    | None => ret tt
    end).

(** [main], after [flag.Parse]: [ignoreTests] is the [-t] flag, [args] the
    remaining arguments; the result is the exit status.  The text
    [flag.PrintDefaults] sends to standard error is left out. *)
Definition main (ignoreTests : bool) (args : list string) : IO nat :=
  match args with
  | [] =>
      Println "Usage: gosummarize [-t] <directory>" ;;;
      ret 1
  | dirPath :: _ =>
      match findGoFiles fsys dirPath ignoreTests with
      | (_, Some err) =>
          Printf ("Error finding Go files: " ++ err ++ nl) ;;;
          ret 1
      | (files, None) =>
          if Nat.eqb (List.length files) 0 then
            Println "No Go files found in the specified directory or its subdirectories" ;;;
            ret 0
          else
            summarizeAll files ;;;
            ret 0
      end
  end.

End Summarizer.

(* ================================================================= *)
(** ** A sample printer *)

(** [goPrint] writes a node the way [go/printer] does for source written on
    one line: a struct or interface in braces on one line, a method as its
    name followed by its signature.  It stands in for [Fprint] where an
    example is run. *)
Module SamplePrinter.

Definition joinNames (names : list Ident) : string :=
  String.concat ", " (map Ident_Name names).

Fixpoint goPrint (e : Expr) : string :=
  match e with
  | IdentExpr id => Ident_Name id
  | BasicLit v => v
  | StarExpr x => "*" ++ goPrint x
  | SelectorExpr x sel => goPrint x ++ "." ++ Ident_Name sel
  | ArrayType len elt =>
      "[" ++ match len with Some l => goPrint l | None => EmptyString end
      ++ "]" ++ goPrint elt
  | MapType k v => "map[" ++ goPrint k ++ "]" ++ goPrint v
  | CallExpr f args =>
      goPrint f ++ "("
      ++ String.concat ", "
           ((fix each (es : list Expr) : list string :=
               match es with
               | [] => []
               | e' :: es' => goPrint e' :: each es'
               end) args)
      ++ ")"
  | FuncType params results =>
      "func(" ++ String.concat ", " (goPrintFields params) ++ ")"
      ++ match results with
         | None => EmptyString
         | Some (mkFieldList [mkField _ [] t]) => " " ++ goPrint t
         | Some rs => " (" ++ String.concat ", " (goPrintFields rs) ++ ")"
         end
  | InterfaceType methods =>
      match goPrintMethods methods with
      | [] => "interface{}"
      | ms => "interface{ " ++ String.concat "; " ms ++ " }"
      end
  | StructType None => "struct"
  | StructType (Some fields) =>
      match goPrintFields fields with
      | [] => "struct{}"
      | fs => "struct{ " ++ String.concat "; " fs ++ " }"
      end
  end
with goPrintField (f : Field) : string :=
  match f with
  | mkField _ [] t => goPrint t
  | mkField _ names t => joinNames names ++ " " ++ goPrint t
  end
with goPrintMethod (f : Field) : string :=
  match f with
  | mkField _ [] t => goPrint t
  | mkField _ names t => joinNames names ++ TrimPrefix (goPrint t) "func"
  end
with goPrintFields (l : FieldList) : list string :=
  match l with
  | mkFieldList fs =>
      (fix each (fs : list Field) : list string :=
         match fs with
         | [] => []
         | f :: fs' => goPrintField f :: each fs'
         end) fs
  end
with goPrintMethods (l : FieldList) : list string :=
  match l with
  | mkFieldList fs =>
      (fix each (fs : list Field) : list string :=
         match fs with
         | [] => []
         | f :: fs' => goPrintMethod f :: each fs'
         end) fs
  end.

End SamplePrinter.
Import SamplePrinter.

(* ================================================================= *)
(** ** Reading a computation *)

(** [m] appends the writes [w] to whatever standard output holds and ends
    with [r]. *)
Definition Writes {A} (m : IO A) (w : list string) (r : Outcome A) : Prop :=
  forall out, m out = ((out ++ w)%list, r).

(** [m] appends [w] and returns. *)
Definition Prints (m : IO unit) (w : list string) : Prop := Writes m w (Ret tt).


(** What [m] writes, and how it ends, from an empty standard output. *)
Definition written {A} (m : IO A) : list string := fst (m []).
Definition outcome {A} (m : IO A) : Outcome A := snd (m []).

(** [m] returns, whatever it writes. *)
Definition Returns (m : IO unit) : Prop := exists w, Prints m w.

(* ================================================================= *)
(** ** Vocabulary of the statements *)

(** The doc line that follows a rendered declaration: the doc text trimmed
    and indented, present when the doc text is not empty. *)
Definition docLines (doc : option CommentGroup) : list string :=
  if nonEmpty (docText doc)
  then ["    " ++ TrimSpace (docText doc) ++ nl]
  else [].

(** Every entry of the tree can be read. *)
Fixpoint readable (n : Node) : bool :=
  match n with
  | NotDir => true
  | Failing _ => false
  | Dir entries => forallb (fun ne => readable (snd ne)) entries
  end.

(** [Locates path n q]: [q] is the path of an entry that is not a directory,
    at any depth of the tree [n] found at [path]. *)
Inductive Locates : string -> Node -> string -> Prop :=
| Locates_here (path : string) : Locates path NotDir path
| Locates_below (path : string) (entries : list (string * Node))
    (name : string) (child : Node) (q : string) :
    In (name, child) entries ->
    Locates (Join path name) child q ->
    Locates path (Dir entries) q.

(** A character occurs in a string. *)
Fixpoint hasChar (c : ascii) (s : string) : bool :=
  match s with
  | EmptyString => false
  | String c' s' => Ascii.eqb c c' || hasChar c s'
  end.

(** The paths that are not test files. *)
Definition notTest (p : string) : bool := negb (HasSuffix p "_test.go").

(** The paths of the first list that the second lacks. *)
Definition missingFrom (all some : list string) (p : string) : Prop :=
  In p all /\ ~ In p some.

(** The comment line written above a field that carries doc text. *)
Definition fieldDocLines (doc : option CommentGroup) : list string :=
  match doc with
  | Some d =>
      if nonEmpty (CommentGroup_Text d)
      then [tab ++ "// " ++ TrimSpace (CommentGroup_Text d) ++ nl]
      else []
  | None => []
  end.

(** The line of a struct field: tab, name, tab, type text. *)
Definition fieldLine (Fprint : Expr -> string) (name : Ident) (type : Expr)
  : string :=
  tab ++ Ident_Name name ++ tab ++ Fprint type ++ nl.

(** A field entry reduced to what the renderer reads of it: nothing for an
    embedded field, the first name alone for a named entry. *)
Definition firstNameOnly (f : Field) : list Field :=
  match Field_Names f with
  | [] => []
  | n :: _ => [mkField (Field_Doc f) [n] (Field_Type f)]
  end.

(** A struct type specification. *)
Definition structSpec (name : Ident) (fields : list Field) : TypeSpec :=
  mkTypeSpec name (StructType (Some (mkFieldList fields))).

(** The line of a const or var name, as the specification words it:
    label, name, the type clause if a type is stated, the value clause if
    an initializer stands at the position of the name. *)
Definition valueLine (label name : string) (typeText valueText : option string)
  : string :=
  label ++ " " ++ name
  ++ match typeText with Some t => " " ++ t | None => EmptyString end
  ++ match valueText with Some v => " = " ++ v | None => EmptyString end
  ++ nl.

(** The keyword of a const/var declaration. *)
Definition keyword (tok : Token) : string :=
  match tok with
  | CONST => "const"
  | _ => "var"
  end.

(** The message [summarizeFile] returns when the parser fails. *)
Definition parseErrorMessage (filePath : string) (cause : error) : string :=
  "error parsing " ++ filePath ++ ": " ++ cause.

(** The block of a field entry whose first name is exported: the optional
    comment line, then the line of the field. *)
Definition fieldBlock (Fprint : Expr -> string) (f : Field) : list string :=
  match Field_Names f with
  | n :: _ => (fieldDocLines (Field_Doc f) ++ [fieldLine Fprint n (Field_Type f)])%list
  | [] => []
  end.

(** A named field, one name to the entry, whose name is exported. *)
Definition namedExported (f : Field) : bool :=
  match Field_Names f with
  | [n] => Ident_IsExported n
  | _ => false
  end.

(** A write inside a struct block is a field line when it starts with a tab
    and is not a comment line. *)
Definition isFieldLine (w : string) : bool :=
  HasPrefix w tab && negb (HasPrefix w (tab ++ "// ")).

(** The name an embedded field goes by: the name of its type. *)
Fixpoint embeddedName (t : Expr) : option Ident :=
  match t with
  | IdentExpr id => Some id
  | StarExpr x => embeddedName x
  | SelectorExpr _ sel => Some sel
  | _ => None
  end.

(** The exported fields of a struct as the language counts them: every
    exported name of every entry, an embedded field under the name of its
    type. *)
Definition exportedFieldNames (fields : list Field) : list string :=
  flat_map
    (fun f =>
       match Field_Names f with
       | [] =>
           match embeddedName (Field_Type f) with
           | Some id => if Ident_IsExported id then [Ident_Name id] else []
           | None => []
           end
       | names => map Ident_Name (filter Ident_IsExported names)
       end)
    fields.

(** The names of the struct fields declared anywhere inside a type. *)
Fixpoint fieldNamesIn (e : Expr) : list string :=
  match e with
  | IdentExpr _ => []
  | BasicLit _ => []
  | StarExpr x => fieldNamesIn x
  | SelectorExpr x _ => fieldNamesIn x
  | ArrayType len elt =>
      (match len with Some l => fieldNamesIn l | None => [] end
       ++ fieldNamesIn elt)%list
  | MapType k v => (fieldNamesIn k ++ fieldNamesIn v)%list
  | CallExpr f args =>
      (fieldNamesIn f
       ++ (fix each (es : list Expr) : list string :=
             match es with
             | [] => []
             | e' :: es' => (fieldNamesIn e' ++ each es')%list
             end) args)%list
  | FuncType params results =>
      (fieldNamesInTypes params
       ++ match results with Some rs => fieldNamesInTypes rs | None => [] end)%list
  | InterfaceType methods => fieldNamesInTypes methods
  | StructType None => []
  | StructType (Some fields) => fieldNamesOf fields
  end
with fieldNamesOf (l : FieldList) : list string :=
  match l with
  | mkFieldList fs =>
      (fix each (fs : list Field) : list string :=
         match fs with
         | [] => []
         | mkField _ names t :: fs' =>
             (map Ident_Name names ++ fieldNamesIn t ++ each fs')%list
         end) fs
  end
with fieldNamesInTypes (l : FieldList) : list string :=
  match l with
  | mkFieldList fs =>
      (fix each (fs : list Field) : list string :=
         match fs with
         | [] => []
         | mkField _ _ t :: fs' => (fieldNamesIn t ++ each fs')%list
         end) fs
  end.


(** The identifiers of a text: its longest runs of letters, digits and
    underscores. *)
Definition isIdentChar (c : ascii) : bool :=
  let n := nat_of_ascii c in
  (Nat.leb 65 n && Nat.leb n 90) || (Nat.leb 97 n && Nat.leb n 122)
  || (Nat.leb 48 n && Nat.leb n 57) || Nat.eqb n 95.

Fixpoint scan (s : string) (cur : string) : list string :=
  match s with
  | EmptyString => if nonEmpty cur then [cur] else []
  | String c s' =>
      if isIdentChar c then scan s' (cur ++ String c EmptyString)
      else ((if nonEmpty cur then [cur] else []) ++ scan s' EmptyString)%list
  end.

Definition identifiers (text : string) : list string := scan text EmptyString.



(* ================================================================= *)
(** ** Sample inputs *)

Module Samples.

Definition ident (name : string) : Expr := IdentExpr (mkIdent name).

Definition param (name type : string) : Field :=
  mkField None [mkIdent name] (ident type).

Definition result (type : string) : Field := mkField None [] (ident type).

(** [func (s *StructWithInterface) ProcessData(input string) string],
    with its doc comment, from testdata/sample.go. *)
Definition ProcessData : FuncDecl :=
  mkFuncDecl
    (Some (mkCommentGroup
             ("ProcessData processes the input string and returns a modified version"
              ++ nl ++ "It implements the PublicInterface" ++ nl)))
    (Some (mkFieldList
             [mkField None [mkIdent "s"] (StarExpr (ident "StructWithInterface"))]))
    (mkIdent "ProcessData")
    (FuncType (mkFieldList [param "input" "string"])
              (Some (mkFieldList [result "string"]))).

(** The tree of the test TestEmptyDirectoryWithSubdirs, seen from
    [empty]: nothing at the top level, one Go file two levels down. *)
Definition emptyTop : Node :=
  Dir [("nested", Dir [("nested.go", NotDir)])].

(** A directory with Go files and no test file. *)
Definition noTests : Node :=
  Dir [("file1.go", NotDir); ("notgo.txt", NotDir)].

(** [type Walker interface{ step(); Visit(n Node) }]: an interface with a
    method that is not exported. *)
Definition WalkerSpec : TypeSpec :=
  mkTypeSpec (mkIdent "Walker")
    (InterfaceType
       (mkFieldList
          [mkField None [mkIdent "step"] (FuncType (mkFieldList []) None);
           mkField None [mkIdent "Visit"]
             (FuncType (mkFieldList [param "n" "Node"]) None)])).
Definition Walker : GenDecl :=
  mkGenDecl (Some (mkCommentGroup ("Walker visits nodes" ++ nl))) TYPE
    [TypeSpec_ WalkerSpec].

(** The grouped constants of testdata/sample.go:
    [const ( FirstConst = 1; SecondConst = 2; privateConst = 3 )] under
    the doc comment [MultipleConsts defines multiple constants]. *)
Definition FirstConst : ValueSpec :=
  mkValueSpec [mkIdent "FirstConst"] None [BasicLit "1"].
Definition SecondConst : ValueSpec :=
  mkValueSpec [mkIdent "SecondConst"] None [BasicLit "2"].
Definition privateConst : ValueSpec :=
  mkValueSpec [mkIdent "privateConst"] None [BasicLit "3"].
Definition MultipleConsts : GenDecl :=
  mkGenDecl
    (Some (mkCommentGroup ("MultipleConsts defines multiple constants" ++ nl)))
    CONST
    [ValueSpec_ FirstConst; ValueSpec_ SecondConst; ValueSpec_ privateConst].

(** A parser that fails on [bad.go] and finds an empty file elsewhere. *)
Definition parseBad (path : string) : ParseResult :=
  if path =? "bad.go"
  then ParseError "bad.go:1:1: expected 'package', found 'EOF'"
  else Parsed (mkFile []).

(** A file with the method [ProcessData], and two parsers that agree on
    it at [sample.go]. *)
Definition sampleFile : File := mkFile [FuncDecl_ ProcessData].
Definition parseSample (path : string) : ParseResult := Parsed sampleFile.

(** [type Server struct { Base; Opts struct{ debug bool } }]: an embedded
    field, and a field whose type is a struct with a field that is not
    exported. *)
Definition ServerFields : list Field :=
  [ mkField None [] (ident "Base");
    mkField None [mkIdent "Opts"]
      (StructType (Some (mkFieldList [param "debug" "bool"]))) ].
Definition Server : GenDecl :=
  mkGenDecl None TYPE [TypeSpec_ (structSpec (mkIdent "Server") ServerFields)].


(** [type PublicStruct struct { PublicField string; privateField int }]
    with its comments, from testdata/sample.go. *)
Definition PublicStructFields : list Field :=
  [ mkField (Some (mkCommentGroup ("PublicField is an exported field" ++ nl)))
      [mkIdent "PublicField"] (ident "string");
    mkField None [mkIdent "privateField"] (ident "int") ].
Definition PublicStruct : GenDecl :=
  mkGenDecl
    (Some (mkCommentGroup
             ("PublicStruct is a sample, exported struct with documentation" ++ nl)))
    TYPE
    [TypeSpec_ (structSpec (mkIdent "PublicStruct") PublicStructFields)].

(** A file with names of both kinds: [privateFunction], the method
    [ProcessData], the grouped constants and [PublicStruct]. *)
Definition privateFunction : FuncDecl :=
  mkFuncDecl None None (mkIdent "privateFunction") (FuncType (mkFieldList []) None).
Definition mixedFile : File :=
  mkFile [ FuncDecl_ privateFunction; FuncDecl_ ProcessData;
           GenDecl_ MultipleConsts; GenDecl_ PublicStruct ].
Definition parseMixed (path : string) : ParseResult := Parsed mixedFile.

End Samples.

(* ================================================================= *)
(** ** Vocabulary for the rest of the program *)

(** The error of the first entry, in the order of the walk, that cannot be
    read. *)
Fixpoint firstFailure (n : Node) : option error :=
  match n with
  | NotDir => None
  | Failing e => Some e
  | Dir entries =>
      (fix each (es : list (string * Node)) : option error :=
         match es with
         | [] => None
         | (_, child) :: es' =>
             match firstFailure child with
             | Some e => Some e
             | None => each es'
             end
         end) entries
  end.

(** No name occurs twice in a list. *)
Fixpoint distinctNames (names : list string) : bool :=
  match names with
  | [] => true
  | n :: ns => negb (existsb (String.eqb n) ns) && distinctNames ns
  end.

(** A tree as a file system holds it: in every directory the entry names
    differ from one another and none contains the separator. *)
Fixpoint wellNamed (n : Node) : bool :=
  match n with
  | Dir entries =>
      distinctNames (map fst entries)
      && forallb (fun ne => negb (hasChar "/" (fst ne)) && wellNamed (snd ne))
                 entries
  | _ => true
  end.

(** What discovery keeps: a path that ends in [.go] and, when test files
    are left out, does not end in [_test.go]. *)
Definition kept (ignoreTests : bool) (p : string) : bool :=
  HasSuffix p ".go" && negb (ignoreTests && HasSuffix p "_test.go").

(** The declaration the program stops on: an exported function whose
    receiver list is present and empty. *)
Definition stops (decl : Decl) : bool :=
  match decl with
  | FuncDecl_ fn =>
      Ident_IsExported (FuncDecl_Name fn)
      && match FuncDecl_Recv fn with
         | Some (mkFieldList []) => true
         | _ => false
         end
  | _ => false
  end.

(** The two marker lines of a file. *)
Definition startMarker (path : string) : string :=
  "<<<FILE_START>>> " ++ path ++ nl ++ nl.
Definition endMarker (path : string) : string :=
  "<<<FILE_END>>> " ++ path ++ nl ++ nl.

(** What the declarations of a file write, one after the other. *)
Definition declarationWrites (Fprint : Expr -> string) (decls : list Decl)
  : list string :=
  flat_map (fun decl => written (processDeclaration Fprint decl)) decls.



(** The names a file declares at top level. *)
Definition topLevelNames (file : File) : list Ident :=
  flat_map
    (fun decl =>
       match decl with
       | BadDecl => []
       | FuncDecl_ fn => [FuncDecl_Name fn]
       | GenDecl_ gen =>
           flat_map
             (fun spec =>
                match spec with
                | ImportSpec _ => []
                | TypeSpec_ s => [TypeSpec_Name s]
                | ValueSpec_ s => ValueSpec_Names s
                end)
             (GenDecl_Specs gen)
       end)
    (File_Decls file).

(** A specification with an exported name. *)
Definition keepSpec (spec : Spec) : bool :=
  match spec with
  | ImportSpec _ => false
  | TypeSpec_ s => Ident_IsExported (TypeSpec_Name s)
  | ValueSpec_ s => existsb Ident_IsExported (ValueSpec_Names s)
  end.

(** A declaration without what has no exported name: a function that is
    not exported goes, a general declaration keeps the specifications with
    an exported name and goes when none is left. *)
Definition pruneDecl (decl : Decl) : list Decl :=
  match decl with
  | BadDecl => []
  | FuncDecl_ fn => if Ident_IsExported (FuncDecl_Name fn) then [decl] else []
  | GenDecl_ gen =>
      match filter keepSpec (GenDecl_Specs gen) with
      | [] => []
      | specs => [GenDecl_ (mkGenDecl (GenDecl_Doc gen) (GenDecl_Tok gen) specs)]
      end
  end.

Definition prune (file : File) : File :=
  mkFile (flat_map pruneDecl (File_Decls file)).

(** A declaration that carries an exported name. *)
Definition carriesExportedName (decl : Decl) : bool :=
  match decl with
  | BadDecl => false
  | FuncDecl_ fn => Ident_IsExported (FuncDecl_Name fn)
  | GenDecl_ gen =>
      negb (Nat.eqb (List.length (GenDecl_Specs gen)) 0)
      && forallb keepSpec (GenDecl_Specs gen)
  end.

(* ================================================================= *)
(** ** The earlier variant of the program (src/main.go) *)

(** The variant without the [-t] flag.  Its handling of types, constants
    and variables is the code of the other variant, line for line; discovery
    has no flag, and a function or method is printed with the whole printed
    type and, for a method, the printed receiver list. *)
Module Legacy.

Definition findGoFiles_walkFn : WalkFunc (list string) :=
  fun path info err files =>
    match err with
    | Some e => (files, Some e)
    | None =>
        if negb (IsDir info) && HasSuffix path ".go"
        then ((files ++ [path])%list, None)
        else (files, None)
    end.

(** [findGoFiles(root)]. *)
Definition findGoFiles (fsys : string -> Node) (root : string)
  : list string * option error :=
  Walk fsys root findGoFiles_walkFn [].

Section LegacySummarizer.

(** [printer.Fprint] on an expression and on a receiver list. *)
Variable Fprint : Expr -> string.
Variable FprintFields : FieldList -> string.
Variable ParseFile : string -> ParseResult.
Variable fsys : string -> Node.

(** The [*ast.FuncDecl] branch of [processDeclaration]. *)
Definition processFuncDecl (fn : FuncDecl) : IO unit :=
  if Ident_IsExported (FuncDecl_Name fn) then
    let doc := docText (FuncDecl_Doc fn) in
    let funcType :=
      match FuncDecl_Recv fn with
      | None => "func"
      | Some _ => "method"
      end in
    let signature := Fprint (FuncDecl_Type fn) in
    (match FuncDecl_Recv fn with
     | Some r =>
         let recv := FprintFields r in
         Printf (funcType ++ " " ++ recv ++ Ident_Name (FuncDecl_Name fn)
                 ++ " " ++ signature ++ nl)
     | None =>
         Printf (funcType ++ " " ++ Ident_Name (FuncDecl_Name fn)
                 ++ signature ++ nl)
     end) ;;;
    printDoc doc ;;;
    Println EmptyString
  else ret tt.

(** [processDeclaration(decl, file, fset)]. *)
Definition processDeclaration (decl : Decl) : IO unit :=
  match decl with
  | FuncDecl_ fn => processFuncDecl fn
  | GenDecl_ gen =>
      forRange (GenDecl_Specs gen) (fun spec =>
        match spec with
        | TypeSpec_ s => processTypeSpec Fprint gen s
        | ValueSpec_ s => processValueSpec Fprint gen s
        | ImportSpec _ => ret tt
        end)
  | BadDecl => ret tt
  end.

(** [summarizeFile(filePath)]. *)
Definition summarizeFile (filePath : string) : IO (option error) :=
  match ParseFile filePath with
  | ParseError err =>
      ret (Some ("error parsing " ++ filePath ++ ": " ++ err))
  | Parsed file =>
      Printf ("<<<FILE_START>>> " ++ filePath ++ nl ++ nl) ;;;
      forRange (File_Decls file) processDeclaration ;;;
      Printf ("<<<FILE_END>>> " ++ filePath ++ nl ++ nl) ;;;
      ret None
  end.

(** [main]; [args] is [os.Args] without the program name. *)
Definition main (args : list string) : IO nat :=
  match args with
  | [] =>
      Println "Usage: gosummarize <directory>" ;;;
      ret 1
  | dirPath :: _ =>
      match findGoFiles fsys dirPath with
      | (_, Some err) =>
          Printf ("Error finding Go files: " ++ err ++ nl) ;;;
          ret 1
      | (files, None) =>
          if Nat.eqb (List.length files) 0 then
            Println "No Go files found in the specified directory" ;;;
            ret 0
          else
            forRange files (fun file =>
              err <- summarizeFile file ;;
              match err with
              | Some e => Println e
              | None => ret tt
              end) ;;;
            ret 0
      end
  end.

End LegacySummarizer.

End Legacy.

(* ================================================================= *)
(** ** More sample inputs *)

Module Samples2.

(** The tree TestFindGoFiles builds, seen from its temporary directory. *)
Definition withTests : Node :=
  Dir [ ("file1.go", NotDir); ("file2.go", NotDir); ("file3_test.go", NotDir);
        ("subdir", Dir [("file4.go", NotDir); ("file5_test.go", NotDir)]) ].

(** A file that declares [const Answer = 42] and then [func () Broken()],
    whose receiver list is empty. *)
Definition Answer : GenDecl :=
  mkGenDecl None CONST
    [ValueSpec_ (mkValueSpec [mkIdent "Answer"] None [BasicLit "42"])].
Definition Broken : FuncDecl :=
  mkFuncDecl None (Some (mkFieldList [])) (mkIdent "Broken")
    (FuncType (mkFieldList []) None).
Definition brokenFile : File := mkFile [GenDecl_ Answer; FuncDecl_ Broken].
Definition parseBroken (path : string) : ParseResult := Parsed brokenFile.


(** A directory with [a.go] and then an entry that cannot be read. *)
Definition denied : Node :=
  Dir [("a.go", NotDir); ("private", Failing "permission denied")].

(** A directory that holds one test file. *)
Definition onlyTests : Node := Dir [("util_test.go", NotDir)].

(** A parser that returns [Samples.mixedFile] without what is not
    exported. *)
Definition parsePruned (path : string) : ParseResult :=
  Parsed (prune Samples.mixedFile).

(** A file that declares [privateFunction] and [privateConst] only. *)
Definition privateFile : File :=
  mkFile [ FuncDecl_ Samples.privateFunction;
           GenDecl_ (mkGenDecl None CONST [ValueSpec_ Samples.privateConst]) ].
Definition parsePrivate (path : string) : ParseResult := Parsed privateFile.

(** A file with the grouped constants and [PublicStruct] of
    testdata/sample.go, and no function. *)
Definition valuesFile : File :=
  mkFile [GenDecl_ Samples.MultipleConsts; GenDecl_ Samples.PublicStruct].
Definition parseValues (path : string) : ParseResult := Parsed valuesFile.

(** [func PublicFunction(input string, count int) (string, error)] of
    testdata/sample.go, without its doc comment. *)
Definition PublicFunction : FuncDecl :=
  mkFuncDecl None None (mkIdent "PublicFunction")
    (FuncType
       (mkFieldList [Samples.param "input" "string"; Samples.param "count" "int"])
       (Some (mkFieldList [Samples.result "string"; Samples.result "error"]))).

End Samples2.

(* ================================================================= *)
(** * Theorems *)

(** ** Strings *)

Lemma length_append (s t : string) :
  String.length (s ++ t) = String.length s + String.length t.
Proof. induction s as [| c s IH]; simpl; [reflexivity | now rewrite IH]. Qed.

Lemma substring_prefix (p s : string) :
  substring 0 (String.length p) (p ++ s) = p.
Proof.
  induction p as [| c p IH]; simpl.
  - now destruct s.
  - now rewrite IH.
Qed.

Lemma HasPrefix_append (p s : string) : HasPrefix (p ++ s) p = true.
Proof.
  unfold HasPrefix. rewrite substring_prefix, String.eqb_refl, andb_true_r.
  apply Nat.leb_le. rewrite length_append. lia.
Qed.



Lemma substring_skip (p s : string) (n : nat) :
  substring (String.length p) n (p ++ s) = substring 0 n s.
Proof. induction p as [| c p IH]; simpl; [reflexivity | exact IH]. Qed.

Lemma substring_all (s : string) : substring 0 (String.length s) s = s.
Proof. induction s as [| c s IH]; simpl; [reflexivity | now rewrite IH]. Qed.

Lemma substring_split (s : string) (n : nat) :
  n <= String.length s ->
  s = substring 0 n s ++ substring n (String.length s - n) s.
Proof.
  revert n. induction s as [| c s IH]; intros n Hn; simpl in *.
  - assert (n = 0) by lia. subst. reflexivity.
  - destruct n as [| n]; simpl.
    + now rewrite substring_all.
    + f_equal. apply IH. lia.
Qed.

Lemma HasSuffix_iff (s suffix : string) :
  HasSuffix s suffix = true <-> exists p, s = p ++ suffix.
Proof.
  unfold HasSuffix. rewrite andb_true_iff, Nat.leb_le, String.eqb_eq. split.
  - intros [Hlen Hsub].
    exists (substring 0 (String.length s - String.length suffix) s).
    pose proof (substring_split s (String.length s - String.length suffix)
                  ltac:(lia)) as H.
    replace (String.length s - (String.length s - String.length suffix))
      with (String.length suffix) in H by lia.
    rewrite Hsub in H. exact H.
  - intros [p ->]. rewrite length_append. split; [lia |].
    replace (String.length p + String.length suffix - String.length suffix)
      with (String.length p) by lia.
    rewrite substring_skip. apply substring_all.
Qed.

Lemma append_assoc (a b c : string) : (a ++ b) ++ c = a ++ b ++ c.
Proof. induction a as [| x a IH]; simpl; [reflexivity | now rewrite IH]. Qed.

Lemma hasChar_append (c : ascii) (a b : string) :
  hasChar c (a ++ b) = hasChar c a || hasChar c b.
Proof.
  induction a as [| x a IH]; simpl; [reflexivity |].
  now rewrite IH, orb_assoc.
Qed.

(** Where two ways of cutting one string meet. *)
Lemma append_eq_append (a b c d : string) :
  a ++ b = c ++ d ->
  (exists x, a = c ++ x /\ d = x ++ b) \/ (exists x, c = a ++ x /\ b = x ++ d).
Proof.
  revert c. induction a as [| x a IH]; intros c H; simpl in *.
  - right. exists c. now split.
  - destruct c as [| y c]; simpl in *.
    + left. exists (String x a). now split.
    + injection H as -> H. destruct (IH _ H) as [[z [-> ->]] | [z [-> ->]]].
      * left. now exists z.
      * right. now exists z.
Qed.

(** The test on a path agrees with the test on the name of the entry: a
    suffix without a separator never reaches into the directory part. *)
Lemma HasSuffix_Join (dir name suffix : string) :
  hasChar "/" suffix = false ->
  HasSuffix (Join dir name) suffix = HasSuffix name suffix.
Proof.
  intros Hsep. apply eq_true_iff_eq. rewrite !HasSuffix_iff. unfold Join. split.
  - intros [p H]. apply append_eq_append in H.
    destruct H as [[x [_ Hx]] | [x [_ Hx]]].
    + rewrite Hx, hasChar_append in Hsep. simpl in Hsep.
      rewrite orb_true_r in Hsep. discriminate.
    + destruct x as [| c x]; simpl in Hx.
      * rewrite <- Hx in Hsep. simpl in Hsep. discriminate.
      * injection Hx as _ Hx. now exists x.
  - intros [p ->]. exists (dir ++ "/" ++ p). now rewrite !append_assoc.
Qed.


Lemma HasPrefix_cons (c : ascii) (s p : string) :
  HasPrefix (String c s) (String c p) = HasPrefix s p.
Proof. unfold HasPrefix. simpl. now rewrite Ascii.eqb_refl. Qed.

Lemma HasPrefix_cons_neq (c1 c2 : ascii) (s p : string) :
  c1 <> c2 -> HasPrefix (String c1 s) (String c2 p) = false.
Proof.
  intros Hne. unfold HasPrefix. simpl.
  destruct (Ascii.eqb_spec c1 c2) as [-> | _]; [contradiction |].
  apply andb_false_r.
Qed.

Lemma isUpper_not_slash (c : ascii) : isUpper c = true -> c <> "/"%char.
Proof. intros H ->. discriminate. Qed.

#[local] Arguments String.append : simpl never.
#[local] Arguments HasSuffix : simpl never.
#[local] Arguments HasPrefix : simpl never.
#[local] Arguments TrimPrefix : simpl never.
#[local] Arguments TrimSpace : simpl never.

(** ** What a computation appends to standard output *)

Lemma Writes_ret {A} (a : A) : Writes (ret a) [] (Ret a).
Proof. intros out. unfold ret. now rewrite app_nil_r. Qed.


Lemma Writes_Printf (s : string) : Writes (Printf s) [s] (Ret tt).
Proof. intros out. reflexivity. Qed.

Lemma Writes_Println (s : string) : Writes (Println s) [s ++ nl] (Ret tt).
Proof. intros out. reflexivity. Qed.

Lemma Writes_bind {A B} (m : IO A) (k : A -> IO B) w1 a w2 r :
  Writes m w1 (Ret a) -> Writes (k a) w2 r ->
  Writes (bind m k) (w1 ++ w2)%list r.
Proof.
  intros Hm Hk out. unfold bind. rewrite Hm, Hk. now rewrite app_assoc.
Qed.

Lemma Writes_bind_panic {A B} (m : IO A) (k : A -> IO B) w msg :
  Writes m w (Panic msg) -> Writes (bind m k) w (Panic msg).
Proof. intros Hm out. unfold bind. now rewrite Hm. Qed.

Lemma Writes_eq {A} (m : IO A) w w' r :
  Writes m w r -> w = w' -> Writes m w' r.
Proof. now intros H <-. Qed.










Lemma Prints_written {A} (m : IO A) w r :
  Writes m w r -> written m = w /\ outcome m = r.
Proof.
  intros H. unfold written, outcome. now rewrite (H []).
Qed.

Lemma Returns_Prints (m : IO unit) : Returns m -> Prints m (written m).
Proof.
  intros [w H]. unfold written. rewrite (H []). exact H.
Qed.

Lemma Returns_ret : Returns (ret tt).
Proof. eexists; apply Writes_ret. Qed.

Lemma Returns_Printf (s : string) : Returns (Printf s).
Proof. eexists; apply Writes_Printf. Qed.

Lemma Returns_Println (s : string) : Returns (Println s).
Proof. eexists; apply Writes_Println. Qed.

Lemma Returns_bind (m : IO unit) (k : unit -> IO unit) :
  Returns m -> Returns (k tt) -> Returns (bind m k).
Proof.
  intros [w1 H1] [w2 H2]. exists (w1 ++ w2)%list.
  unfold Prints in *. eapply Writes_bind; eauto.
Qed.

Lemma Returns_forRange {A} (xs : list A) (body : A -> IO unit) :
  (forall x, Returns (body x)) -> Returns (forRange xs body).
Proof.
  intros Hb. induction xs as [| x xs IH]; simpl.
  - apply Returns_ret.
  - apply Returns_bind; auto.
Qed.

Lemma Returns_forRangeFrom {A} (xs : list A) (body : nat -> A -> IO unit) i :
  (forall j x, Returns (body j x)) -> Returns (forRangeFrom i xs body).
Proof.
  intros Hb. revert i. induction xs as [| x xs IH]; intros i; simpl.
  - apply Returns_ret.
  - apply Returns_bind; auto.
Qed.

Create HintDb returns.

#[local] Hint Resolve Returns_ret Returns_Printf Returns_Println : returns.

Ltac returns :=
  repeat first
    [ apply Returns_bind
    | apply Returns_forRange; intros ?
    | apply Returns_forRangeFrom; intros ? ?
    | solve [auto with returns]
    | match goal with
      | |- Returns (if ?b then _ else _) => destruct b
      | |- Returns (match ?x with _ => _ end) => destruct x
      end ].

(** ** The parts of the program *)

Section Program.

Variable Fprint : Expr -> string.
Variable ParseFile : string -> ParseResult.
Variable fsys : string -> Node.

Lemma Returns_printDoc doc : Returns (printDoc doc).
Proof. unfold printDoc. returns. Qed.

Lemma Returns_processField f : Returns (processField Fprint f).
Proof. unfold processField. returns. Qed.

Lemma Returns_processTypeSpec gen s : Returns (processTypeSpec Fprint gen s).
Proof.
  unfold processTypeSpec.
  destruct (Ident_IsExported (TypeSpec_Name s)); [| apply Returns_ret].
  apply Returns_bind; [| apply Returns_bind;
                          [apply Returns_printDoc | apply Returns_Println]].
  destruct (TypeSpec_Type s); try apply Returns_Printf.
  destruct Fields; [| apply Returns_Printf].
  returns. apply Returns_processField.
Qed.

Lemma Returns_processValueName gen s i name :
  Returns (processValueName Fprint gen s i name).
Proof.
  unfold processValueName.
  destruct (Ident_IsExported name); [| apply Returns_ret].
  apply Returns_bind; [apply Returns_Printf |].
  apply Returns_bind; [apply Returns_printDoc | apply Returns_Println].
Qed.

Lemma Returns_processValueSpec gen s : Returns (processValueSpec Fprint gen s).
Proof.
  unfold processValueSpec. apply Returns_forRangeFrom.
  intros; apply Returns_processValueName.
Qed.

Lemma Returns_processGenDecl gen :
  Returns (processDeclaration Fprint (GenDecl_ gen)).
Proof.
  simpl. apply Returns_forRange. intros [p | s | s].
  - apply Returns_ret.
  - apply Returns_processTypeSpec.
  - apply Returns_processValueSpec.
Qed.






End Program.

(** ** C2: the line of a function or method *)



(** A declaration with a receiver list that is present and empty, which
    the parser accepts, stops the program at [fn.Recv.List[0]] before
    anything is written for it. *)
Lemma empty_receiver_list_panics :
  forall (Fprint : Expr -> string) (fn : FuncDecl),
    Ident_IsExported (FuncDecl_Name fn) = true ->
    FuncDecl_Recv fn = Some (mkFieldList []) ->
    Writes (processDeclaration Fprint (FuncDecl_ fn)) []
           (Panic "runtime error: index out of range").
Proof.
  intros Fprint fn Hexp Hrecv out. simpl. unfold processFuncDecl.
  rewrite Hexp, Hrecv. unfold bind, index, panic. simpl.
  now rewrite app_nil_r.
Qed.

(** ** Discovery *)

Lemma Node_ind_nested (P : Node -> Prop) :
  P NotDir ->
  (forall e, P (Failing e)) ->
  (forall entries, Forall (fun ne => P (snd ne)) entries -> P (Dir entries)) ->
  forall n, P n.
Proof.
  intros HN HF HD. fix IH 1. intros [| entries | e].
  - exact HN.
  - apply HD. induction entries as [| [name child] es IHes]; constructor.
    + apply IH.
    + exact IHes.
  - apply HF.
Qed.

Lemma walk_Dir {S} (walkFn : WalkFunc S) path entries s :
  walk walkFn path (Dir entries) s
  = match walkFn path (mkFileInfo true) None s with
    | (s1, Some e) => (s1, Some e)
    | (s1, None) => walkEntries walkFn path entries s1
    end.
Proof. reflexivity. Qed.

Lemma walkEntries_cons {S} (walkFn : WalkFunc S) path name child es s :
  walkEntries walkFn path ((name, child) :: es) s
  = match walk walkFn (Join path name) child s with
    | (s', Some e) => (s', Some e)
    | (s', None) => walkEntries walkFn path es s'
    end.
Proof. reflexivity. Qed.

Lemma walk_ignoreTests (n : Node) :
  forall path files1 files0,
    files1 = filter notTest files0 ->
    fst (walk (findGoFiles_walkFn true) path n files1)
    = filter notTest (fst (walk (findGoFiles_walkFn false) path n files0))
    /\ snd (walk (findGoFiles_walkFn true) path n files1)
       = snd (walk (findGoFiles_walkFn false) path n files0).
Proof.
  induction n as [| e | entries IH] using Node_ind_nested;
    intros path files1 files0 ->.
  - simpl. unfold findGoFiles_walkFn. simpl.
    destruct (HasSuffix path ".go"); simpl; [| now split].
    assert (Hn : notTest path = negb (HasSuffix path "_test.go"))
      by reflexivity.
    destruct (HasSuffix path "_test.go"); simpl;
      rewrite filter_app; simpl; rewrite Hn; simpl.
    + now rewrite app_nil_r.
    + now split.
  - simpl. now split.
  - rewrite !walk_Dir. simpl.
    generalize (eq_refl (filter notTest files0)).
    generalize (filter notTest files0) at 1 3 4 as files1.
    revert files0.
    induction IH as [| [name child] es Hc _ IHes]; intros files0 files1 Hf.
    + simpl. now split.
    + rewrite !walkEntries_cons. simpl in Hc.
      destruct (Hc (Join path name) files1 files0 Hf) as [H1 H2].
      destruct (walk (findGoFiles_walkFn true) (Join path name) child files1)
        as [g1 e1].
      destruct (walk (findGoFiles_walkFn false) (Join path name) child files0)
        as [g0 e0].
      simpl in H1, H2. subst e1. destruct e0 as [e |].
      * simpl. now split.
      * apply IHes. exact H1.
Qed.

Lemma missingFrom_filter (all : list string) (keep : string -> bool) (p : string) :
  missingFrom all (filter keep all) p <-> In p all /\ keep p = false.
Proof.
  unfold missingFrom. rewrite filter_In. split.
  - intros [Hin Hnot]. split; [exact Hin |].
    destruct (keep p); [| reflexivity]. exfalso. apply Hnot. now split.
  - intros [Hin Hk]. split; [exact Hin |]. intros [_ Hk']. congruence.
Qed.

(** ** C7: leaving test files out *)

(** C7, as the program has it.  The paths found with [ignoreTests] set are
    the paths found without it, in the same order, less exactly those that
    end in [_test.go]; the walk fails in one case iff it fails in the other.
    So the first result is included in the second, what is missing is
    exactly the test files, and the inclusion is strict exactly when a test
    file was met.  The test on the path is the test on the entry name. *)
Theorem ignoreTests_removes_test_files :
  forall (fsys : string -> Node) (root : string),
    let kept := findGoFiles fsys root true in
    let all := findGoFiles fsys root false in
    fst kept = filter notTest (fst all)
    /\ snd kept = snd all
    /\ (forall p, In p (fst kept) -> In p (fst all))
    /\ (forall p, missingFrom (fst all) (fst kept) p
                  <-> In p (fst all) /\ HasSuffix p "_test.go" = true)
    /\ ((exists p, missingFrom (fst all) (fst kept) p)
        <-> exists p, In p (fst all) /\ HasSuffix p "_test.go" = true)
    /\ (forall dir name,
           HasSuffix (Join dir name) "_test.go" = HasSuffix name "_test.go").
Proof.
  intros fsys root kept all.
  destruct (walk_ignoreTests (fsys root) root [] [] eq_refl) as [Hf He].
  change (fst kept = filter notTest (fst all)) in Hf.
  change (snd kept = snd all) in He.
  assert (Hmiss : forall p, missingFrom (fst all) (fst kept) p
                            <-> In p (fst all) /\ HasSuffix p "_test.go" = true).
  { intros p. rewrite Hf, missingFrom_filter. unfold notTest.
    now rewrite negb_false_iff. }
  split; [exact Hf |]. split; [exact He |]. split; [| split; [| split]].
  - intros p. rewrite Hf, filter_In. tauto.
  - exact Hmiss.
  - split; intros [p Hp]; exists p; now apply Hmiss.
  - intros dir name. now apply HasSuffix_Join.
Qed.

(** C7, as stated, fails: over a directory without test files the two
    results are the same list, so the inclusion is not strict. *)
Lemma ignoreTests_subset_not_strict :
  let fsys := fun _ : string => Samples.noTests in
  findGoFiles fsys "root" true = (["root/file1.go"], None)
  /\ findGoFiles fsys "root" false = (["root/file1.go"], None)
  /\ ~ (exists p, missingFrom (fst (findGoFiles fsys "root" false))
                              (fst (findGoFiles fsys "root" true)) p).
Proof.
  repeat split.
  intros [p [Hin Hnot]]. apply Hnot. exact Hin.
Qed.

(** ** C8: the walk is recursive *)

Lemma Locates_Dir path entries q :
  Locates path (Dir entries) q
  <-> exists name child,
      In (name, child) entries /\ Locates (Join path name) child q.
Proof.
  split.
  - intros H. inversion H; subst. eauto.
  - intros [name [child [Hin H]]]. econstructor; eauto.
Qed.

Lemma walk_finds (n : Node) :
  readable n = true ->
  forall path files,
    snd (walk (findGoFiles_walkFn false) path n files) = None
    /\ forall q,
        In q (fst (walk (findGoFiles_walkFn false) path n files))
        <-> In q files \/ (Locates path n q /\ HasSuffix q ".go" = true).
Proof.
  induction n as [| e | entries IH] using Node_ind_nested;
    intros Hr path files.
  - simpl. unfold findGoFiles_walkFn. simpl.
    destruct (HasSuffix path ".go") eqn:Hgo; simpl; split; try reflexivity;
      intros q.
    + rewrite in_app_iff. simpl. split.
      * intros [H | [<- | []]]; [now left | right]. split; [constructor | easy].
      * intros [H | [H _]]; [now left |]. inversion H; subst. right. now left.
    + split; [now left |]. intros [H | [H Hq]]; [easy |].
      inversion H; subst. congruence.
  - discriminate.
  - rewrite walk_Dir. simpl in Hr |- *.
    assert (Hloop : forall files,
               snd (walkEntries (findGoFiles_walkFn false) path entries files)
               = None
               /\ forall q,
                   In q (fst (walkEntries (findGoFiles_walkFn false) path
                                          entries files))
                   <-> In q files
                       \/ exists name child,
                         In (name, child) entries
                         /\ Locates (Join path name) child q
                         /\ HasSuffix q ".go" = true).
    { clear files. induction IH as [| [name child] es Hc _ IHes]; intros files.
      - simpl. split; [reflexivity |]. intros q. split; [now left |].
        intros [H | [name [child [[] _]]]]. exact H.
      - simpl in Hr. apply andb_true_iff in Hr. destruct Hr as [Hr1 Hr2].
        rewrite walkEntries_cons. simpl in Hc.
        destruct (Hc Hr1 (Join path name) files) as [He Hin].
        destruct (walk (findGoFiles_walkFn false) (Join path name) child files)
          as [g e0].
        simpl in He, Hin. subst e0.
        destruct (IHes Hr2 g) as [He' Hin']. split; [exact He' |].
        intros q. rewrite Hin', Hin. split.
        + intros [[H | [H1 H2]] | [nm [ch [H1 [H2 H3]]]]].
          * now left.
          * right. exists name, child. repeat split; try assumption. now left.
          * right. exists nm, ch. repeat split; try assumption. now right.
        + intros [H | [nm [ch [[Heq | H1] [H2 H3]]]]].
          * left. now left.
          * injection Heq as <- <-. left. right. now split.
          * right. exists nm, ch. now repeat split. }
    destruct (Hloop files) as [He Hin]. split; [exact He |].
    intros q. rewrite Hin, Locates_Dir. split.
    + intros [H | [nm [ch [H1 [H2 H3]]]]]; [now left | right].
      split; [| exact H3]. now exists nm, ch.
    + intros [H | [[nm [ch [H1 H2]]] H3]]; [now left | right].
      exists nm, ch. now repeat split.
Qed.

(** C8.  On a tree that can be read, discovery succeeds and returns exactly
    the paths of the entries, at any depth below the root, that are not
    directories and end in [.go]; the test on the path is the test on the
    name of the entry. *)
Theorem discovery_walks_subtree :
  forall (fsys : string -> Node) (root : string),
    readable (fsys root) = true ->
    let found := findGoFiles fsys root false in
    snd found = None
    /\ (forall q,
           In q (fst found)
           <-> Locates root (fsys root) q /\ HasSuffix q ".go" = true)
    /\ (forall dir name, HasSuffix (Join dir name) ".go" = HasSuffix name ".go").
Proof.
  intros fsys root Hr found.
  destruct (walk_finds (fsys root) Hr root []) as [He Hin].
  split; [exact He |]. split.
  - intros q. unfold found, findGoFiles, Walk. rewrite Hin. simpl. tauto.
  - intros dir name. now apply HasSuffix_Join.
Qed.

(** The tree of TestEmptyDirectoryWithSubdirs: the file two levels down is
    found from a root with nothing at its top level. *)
Lemma discovery_walks_subtree_witness :
  readable Samples.emptyTop = true
  /\ In "empty/nested/nested.go"
        (fst (findGoFiles (fun _ => Samples.emptyTop) "empty" false)).
Proof.
  split; [reflexivity |].
  apply (discovery_walks_subtree (fun _ => Samples.emptyTop) "empty" eq_refl).
  split; [| reflexivity].
  eapply Locates_below; [left; reflexivity |].
  eapply Locates_below; [left; reflexivity |].
  apply Locates_here.
Defined.

(** ** Loops *)

Lemma forRange_app {A} (xs ys : list A) (body : A -> IO unit) (out : Stdout) :
  forRange (xs ++ ys) body out
  = (forRange xs body ;;; forRange ys body) out.
Proof.
  revert out. induction xs as [| x xs IH]; intros out; simpl.
  - reflexivity.
  - unfold bind. destruct (body x out) as [out' [[] | msg]]; [| reflexivity].
    apply IH.
Qed.

Lemma bind_congr {A B} (m : IO A) (k1 k2 : A -> IO B) (out : Stdout) :
  (forall a o, k1 a o = k2 a o) -> bind m k1 out = bind m k2 out.
Proof.
  intros H. unfold bind. destruct (m out) as [o [a | msg]]; [apply H | reflexivity].
Qed.

(** One iteration of a loop whose bodies all return shows up, whole, in
    what the loop writes. *)
Lemma Prints_forRange_In {A} (xs : list A) (body : A -> IO unit) (x : A) :
  (forall y, Returns (body y)) ->
  In x xs ->
  exists before after,
    Prints (forRange xs body) (before ++ written (body x) ++ after)%list.
Proof.
  intros Hb Hin. apply in_split in Hin. destruct Hin as [l1 [l2 ->]].
  exists (written (forRange l1 body)), (written (forRange l2 body)).
  intros out. rewrite forRange_app.
  eapply Writes_bind.
  - apply Returns_Prints, Returns_forRange, Hb.
  - simpl. eapply Writes_bind.
    + apply Returns_Prints, Hb.
    + apply Returns_Prints, Returns_forRange, Hb.
Qed.

Lemma Prints_forRangeFrom_nth {A} (xs : list A) (body : nat -> A -> IO unit)
  (k i : nat) (x : A) :
  (forall j y, Returns (body j y)) ->
  nth_error xs i = Some x ->
  exists before after,
    Prints (forRangeFrom k xs body)
           (before ++ written (body (k + i) x) ++ after)%list.
Proof.
  intros Hb. revert k i. induction xs as [| y xs IH]; intros k i Hn.
  - destruct i; discriminate.
  - destruct i as [| i]; simpl in Hn.
    + injection Hn as ->. exists [], (written (forRangeFrom (S k) xs body)).
      rewrite Nat.add_0_r. simpl. eapply Writes_bind.
      * apply Returns_Prints, Hb.
      * apply Returns_Prints, Returns_forRangeFrom, Hb.
    + destruct (IH (S k) i Hn) as [before [after H]].
      exists (written (body k y) ++ before)%list, after.
      rewrite <- app_assoc. simpl. eapply Writes_bind.
      * apply Returns_Prints, Hb.
      * replace (k + S i) with (S k + i) by lia. exact H.
Qed.

(** The block of one specification shows up, whole, in what
    [processDeclaration] writes for the declaration. *)
Lemma Prints_spec_In (Fprint : Expr -> string) (gen : GenDecl) (spec : Spec)
  (body : IO unit) (w : list string) :
  In spec (GenDecl_Specs gen) ->
  body = match spec with
         | TypeSpec_ s => processTypeSpec Fprint gen s
         | ValueSpec_ s => processValueSpec Fprint gen s
         | ImportSpec _ => ret tt
         end ->
  Prints body w ->
  exists before after,
    Prints (processDeclaration Fprint (GenDecl_ gen)) (before ++ w ++ after)%list.
Proof.
  intros Hin -> Hw. simpl.
  destruct (Prints_forRange_In (GenDecl_Specs gen)
              (fun spec =>
                 match spec with
                 | TypeSpec_ s => processTypeSpec Fprint gen s
                 | ValueSpec_ s => processValueSpec Fprint gen s
                 | ImportSpec _ => ret tt
                 end) spec) as [before [after H]].
  - intros [p | s | s];
      [apply Returns_ret | apply Returns_processTypeSpec
       | apply Returns_processValueSpec].
  - exact Hin.
  - exists before, after.
    destruct (Prints_written _ _ _ Hw) as [<- _]. exact H.
Qed.

Lemma Prints_printDoc (doc : option CommentGroup) :
  Prints (printDoc (docText doc) ;;; Println EmptyString)
         (docLines doc ++ [nl])%list.
Proof.
  unfold printDoc, docLines. destruct (nonEmpty (docText doc)).
  - eapply Writes_bind; [apply Writes_Printf | apply Writes_Println].
  - eapply Writes_bind; [apply Writes_ret | apply Writes_Println].
Qed.

(** ** C4: a file that does not parse *)

(** C4.  When the parser fails on a file, [summarizeFile] writes nothing,
    neither a start marker nor part of a block, and returns an error that
    names the file and the cause; the loop of [main] prints that error and
    goes on: the files before and after it are summarized as they would be
    without it. *)
Theorem parse_failure_skips_file :
  forall (Fprint : Expr -> string) (ParseFile : string -> ParseResult)
         (path : string) (cause : error),
    ParseFile path = ParseError cause ->
    Writes (summarizeFile Fprint ParseFile path) []
           (Ret (Some (parseErrorMessage path cause)))
    /\ (forall rest out,
           summarizeAll Fprint ParseFile (path :: rest) out
           = summarizeAll Fprint ParseFile rest
               (out ++ [(parseErrorMessage path cause ++ nl)%string])%list)
    /\ (forall before after out,
           summarizeAll Fprint ParseFile (before ++ path :: after) out
           = (summarizeAll Fprint ParseFile before ;;;
              Println (parseErrorMessage path cause) ;;;
              summarizeAll Fprint ParseFile after) out).
Proof.
  intros Fprint ParseFile path cause Hparse.
  assert (H1 : Writes (summarizeFile Fprint ParseFile path) []
                      (Ret (Some (parseErrorMessage path cause)))).
  { unfold summarizeFile. rewrite Hparse. apply Writes_ret. }
  assert (H2 : forall rest out,
             summarizeAll Fprint ParseFile (path :: rest) out
             = summarizeAll Fprint ParseFile rest
                 (out ++ [(parseErrorMessage path cause ++ nl)%string])%list).
  { intros rest out. unfold summarizeAll. simpl. unfold bind at 1 2.
    rewrite H1, app_nil_r. reflexivity. }
  split; [exact H1 |]. split; [exact H2 |].
  intros before after out. unfold summarizeAll at 1. rewrite forRange_app.
  apply bind_congr. intros _ o.
  change (summarizeAll Fprint ParseFile (path :: after) o
          = summarizeAll Fprint ParseFile after
              (o ++ [(parseErrorMessage path cause ++ nl)%string])%list).
  apply H2.
Qed.

(** A run over [bad.go], which does not parse, and [good.go]: one line for
    the error, then the two markers of the good file. *)
Lemma parse_failure_skips_file_witness :
  Samples.parseBad "bad.go"
  = ParseError "bad.go:1:1: expected 'package', found 'EOF'"
  /\ summarizeAll goPrint Samples.parseBad ["bad.go"; "good.go"] []
     = ([ "error parsing bad.go: bad.go:1:1: expected 'package', found 'EOF'"
            ++ nl;
          "<<<FILE_START>>> good.go" ++ nl ++ nl;
          "<<<FILE_END>>> good.go" ++ nl ++ nl ], Ret tt).
Proof.
  split; [reflexivity |].
  rewrite (proj1 (proj2 (parse_failure_skips_file goPrint Samples.parseBad
                           "bad.go" _ eq_refl))).
  reflexivity.
Defined.

(** ** C9: the same file gives the same output *)



(** ** C10: embedded fields and further names of a field entry *)

Lemma bind_congr_l {A B} (m1 m2 : IO A) (k : A -> IO B) (out : Stdout) :
  (forall o, m1 o = m2 o) -> bind m1 k out = bind m2 k out.
Proof. intros H. unfold bind. now rewrite H. Qed.

Lemma forRange_firstNameOnly (Fprint : Expr -> string) (fields : list Field) :
  forall out,
    forRange fields (processField Fprint) out
    = forRange (flat_map firstNameOnly fields) (processField Fprint) out.
Proof.
  induction fields as [| [doc names ty] fields IH]; intros out.
  - reflexivity.
  - destruct names as [| n rest]; simpl.
    + apply IH.
    + change (processField Fprint (mkField doc (n :: rest) ty))
        with (processField Fprint (mkField doc [n] ty)).
      apply bind_congr. intros _ o. apply IH.
Qed.

Lemma Prints_processField_exported (Fprint : Expr -> string) doc n rest ty :
  Ident_IsExported n = true ->
  Prints (processField Fprint (mkField doc (n :: rest) ty))
         (fieldDocLines doc ++ [fieldLine Fprint n ty])%list.
Proof.
  intros Hexp. unfold processField, fieldDocLines. simpl. rewrite Hexp.
  destruct doc as [d |].
  - destruct (nonEmpty (CommentGroup_Text d)).
    + eapply Writes_bind; [apply Writes_Printf | apply Writes_Printf].
    + eapply Writes_bind; [apply Writes_ret | apply Writes_Printf].
  - eapply Writes_bind; [apply Writes_ret | apply Writes_Printf].
Qed.

(** C10.  In the block of a struct type an embedded field writes nothing,
    whatever its type is called.  For an entry with names, what is written
    is what would be written for the first name alone: nothing when the
    first name is not exported, whatever the names after it, and otherwise
    the optional comment line and one line with the first name.  So the
    output for a struct type does not change when embedded fields are
    removed and every entry is cut down to its first name. *)
Theorem struct_field_first_name_only :
  forall (Fprint : Expr -> string),
    (forall doc ty, Prints (processField Fprint (mkField doc [] ty)) [])
    /\ (forall doc n rest ty,
           processField Fprint (mkField doc (n :: rest) ty)
           = processField Fprint (mkField doc [n] ty))
    /\ (forall doc n rest ty,
           Ident_IsExported n = false ->
           Prints (processField Fprint (mkField doc (n :: rest) ty)) [])
    /\ (forall doc n rest ty,
           Ident_IsExported n = true ->
           Prints (processField Fprint (mkField doc (n :: rest) ty))
                  (fieldDocLines doc ++ [fieldLine Fprint n ty])%list)
    /\ (forall gen name fields out,
           processTypeSpec Fprint gen (structSpec name fields) out
           = processTypeSpec Fprint gen
               (structSpec name (flat_map firstNameOnly fields)) out).
Proof.
  intros Fprint. split; [| split; [| split; [| split]]].
  - intros doc ty. apply Writes_ret.
  - reflexivity.
  - intros doc n rest ty Hexp. unfold processField. simpl. rewrite Hexp.
    apply Writes_ret.
  - intros doc n rest ty. apply Prints_processField_exported.
  - intros gen name fields out. unfold processTypeSpec, structSpec. simpl.
    destruct (Ident_IsExported name); [| reflexivity].
    apply bind_congr_l. intros o.
    apply bind_congr. intros _ o'.
    apply bind_congr_l. apply forRange_firstNameOnly.
Qed.

(** The entry [debug, Verbose bool] is silent, its first name not being
    exported; the entry [Name, alias string] writes the line of [Name]. *)
Lemma struct_field_first_name_only_witness :
  Ident_IsExported (mkIdent "debug") = false
  /\ Ident_IsExported (mkIdent "Name") = true
  /\ Prints (processField goPrint
               (mkField None [mkIdent "debug"; mkIdent "Verbose"]
                  (Samples.ident "bool"))) []
  /\ Prints (processField goPrint
               (mkField None [mkIdent "Name"; mkIdent "alias"]
                  (Samples.ident "string")))
            [tab ++ "Name" ++ tab ++ "string" ++ nl].
Proof.
  split; [reflexivity |]. split; [reflexivity |]. split.
  - exact (proj1 (proj2 (proj2 (struct_field_first_name_only goPrint)))
             None (mkIdent "debug") [mkIdent "Verbose"] (Samples.ident "bool")
             eq_refl).
  - exact (proj1 (proj2 (proj2 (proj2 (struct_field_first_name_only goPrint))))
             None (mkIdent "Name") [mkIdent "alias"] (Samples.ident "string")
             eq_refl).
Defined.

(** ** C6: types that are not structs *)

(** C6.  An exported type whose definition is not a struct with a field
    list is rendered as [type <Name> <text>], [<text>] being whatever the
    printer returns for the whole definition; the doc line and a blank line
    follow, and the block appears as it is in what [processDeclaration]
    writes for the declaration.  Nothing is taken out of the text: members
    of an interface are not looked at. *)
Theorem nonstruct_type_verbatim :
  forall (Fprint : Expr -> string) (gen : GenDecl) (s : TypeSpec),
    Ident_IsExported (TypeSpec_Name s) = true ->
    (forall fields, TypeSpec_Type s <> StructType (Some fields)) ->
    let block :=
      ("type " ++ Ident_Name (TypeSpec_Name s) ++ " "
       ++ Fprint (TypeSpec_Type s) ++ nl)
        :: (docLines (GenDecl_Doc gen) ++ [nl])%list in
    Prints (processTypeSpec Fprint gen s) block
    /\ (In (TypeSpec_ s) (GenDecl_Specs gen) ->
        exists before after,
          Prints (processDeclaration Fprint (GenDecl_ gen))
                 (before ++ block ++ after)%list).
Proof.
  intros Fprint gen s Hexp Hns block.
  assert (H : Prints (processTypeSpec Fprint gen s) block).
  { unfold processTypeSpec. rewrite Hexp. unfold block.
    change (?l :: ?r) with ([l] ++ r)%list.
    destruct (TypeSpec_Type s) eqn:E;
      try (eapply Writes_bind; [apply Writes_Printf | apply Prints_printDoc]).
    destruct Fields as [fields |].
    - exfalso. now apply (Hns fields).
    - eapply Writes_bind; [apply Writes_Printf | apply Prints_printDoc]. }
  split; [exact H |].
  intros Hin. eapply Prints_spec_In; [exact Hin | reflexivity | exact H].
Qed.

(** The interface [Walker] keeps its method [step], which is not
    exported. *)
Lemma nonstruct_type_verbatim_witness :
  Ident_IsExported (TypeSpec_Name Samples.WalkerSpec) = true
  /\ Prints (processTypeSpec goPrint Samples.Walker Samples.WalkerSpec)
            [ "type Walker interface{ step(); Visit(n Node) }" ++ nl;
              "    Walker visits nodes" ++ nl;
              nl ].
Proof.
  split; [reflexivity |].
  refine (proj1 (nonstruct_type_verbatim goPrint Samples.Walker
                   Samples.WalkerSpec eq_refl _)).
  intros fields. discriminate.
Defined.

(** ** C5: const and var declarations *)

Lemma keyword_label (tok : Token) :
  (if Token_eqb tok CONST then "const" else "var") = keyword tok.
Proof. now destruct tok. Qed.

(** C5.  An exported name at position [i] of a const/var specification is
    rendered on a line of its own: the keyword of the declaration ([const]
    for a const declaration, [var] for a var declaration), the name, the
    type text when the specification states a type, and the text of the
    initializer when there is one at position [i].  The doc line of the
    declaration, when it has doc text, and a blank line follow each such
    line, so a group doc is repeated under every exported member.  The
    block appears as it is in what is written for the specification and for
    the declaration. *)
Theorem value_line_format :
  forall (Fprint : Expr -> string) (gen : GenDecl) (s : ValueSpec)
         (i : nat) (name : Ident),
    nth_error (ValueSpec_Names s) i = Some name ->
    Ident_IsExported name = true ->
    let block :=
      valueLine (keyword (GenDecl_Tok gen)) (Ident_Name name)
                (option_map Fprint (ValueSpec_Type s))
                (option_map Fprint (nth_error (ValueSpec_Values s) i))
        :: (docLines (GenDecl_Doc gen) ++ [nl])%list in
    Prints (processValueName Fprint gen s i name) block
    /\ (exists before after,
           Prints (processValueSpec Fprint gen s) (before ++ block ++ after)%list)
    /\ (In (ValueSpec_ s) (GenDecl_Specs gen) ->
        exists before after,
          Prints (processDeclaration Fprint (GenDecl_ gen))
                 (before ++ block ++ after)%list)
    /\ keyword CONST = "const" /\ keyword VAR = "var".
Proof.
  intros Fprint gen s i name Hnth Hexp block.
  assert (H : Prints (processValueName Fprint gen s i name) block).
  { unfold processValueName. rewrite Hexp, keyword_label. unfold block, valueLine.
    change (?l :: ?r) with ([l] ++ r)%list.
    eapply Writes_bind; [| apply Prints_printDoc].
    destruct (ValueSpec_Type s); destruct (nth_error (ValueSpec_Values s) i);
      apply Writes_Printf. }
  assert (Hspec : exists before after,
             Prints (processValueSpec Fprint gen s) (before ++ block ++ after)%list).
  { destruct (Prints_forRangeFrom_nth (ValueSpec_Names s)
                (processValueName Fprint gen s) 0 i name) as [before [after Hs]].
    - intros; apply Returns_processValueName.
    - exact Hnth.
    - exists before, after. simpl in Hs.
      destruct (Prints_written _ _ _ H) as [Hw _]. rewrite Hw in Hs. exact Hs. }
  split; [exact H |]. split; [exact Hspec |]. split; [| now split].
  intros Hin. destruct Hspec as [b1 [a1 Hs]].
  destruct (Prints_spec_In Fprint gen (ValueSpec_ s) _ _ Hin eq_refl Hs)
    as [b2 [a2 Hd]].
  exists (b2 ++ b1)%list, (a1 ++ a2)%list.
  clearbody block. repeat rewrite <- app_assoc in Hd.
  repeat rewrite <- app_assoc. exact Hd.
Qed.

(** The grouped constants of testdata/sample.go: [SecondConst] is rendered
    with its value and with the doc comment of the group. *)
Lemma value_line_format_witness :
  nth_error (ValueSpec_Names Samples.SecondConst) 0 = Some (mkIdent "SecondConst")
  /\ Ident_IsExported (mkIdent "SecondConst") = true
  /\ Prints (processValueName goPrint Samples.MultipleConsts
               Samples.SecondConst 0 (mkIdent "SecondConst"))
            [ "const SecondConst = 2" ++ nl;
              "    MultipleConsts defines multiple constants" ++ nl;
              nl ].
Proof.
  split; [reflexivity |]. split; [reflexivity |].
  exact (proj1 (value_line_format goPrint Samples.MultipleConsts
                  Samples.SecondConst 0 (mkIdent "SecondConst")
                  eq_refl eq_refl)).
Defined.

(** ** C3: the block of a struct type *)

Lemma isFieldLine_fieldLine (Fprint : Expr -> string) (n : Ident) (ty : Expr) :
  Ident_IsExported n = true -> isFieldLine (fieldLine Fprint n ty) = true.
Proof.
  unfold Ident_IsExported, isFieldLine, fieldLine. intros Hexp.
  rewrite HasPrefix_append. destruct (Ident_Name n) as [| c name]; [discriminate |].
  simpl in Hexp.
  change (tab ++ String c name ++ tab ++ Fprint ty ++ nl)
    with (String (ascii_of_nat 9) (String c (name ++ tab ++ Fprint ty ++ nl))).
  change (tab ++ "// ") with (String (ascii_of_nat 9) (String "/" "/ ")).
  rewrite HasPrefix_cons, HasPrefix_cons_neq; [reflexivity |].
  now apply isUpper_not_slash.
Qed.

Lemma isFieldLine_comment (text : string) :
  isFieldLine (tab ++ "// " ++ text ++ nl) = false.
Proof.
  unfold isFieldLine. rewrite <- (append_assoc tab "// " (text ++ nl)).
  rewrite (HasPrefix_append (tab ++ "// ")). apply andb_false_r.
Qed.

Lemma filter_isFieldLine_fieldDocLines (doc : option CommentGroup) :
  filter isFieldLine (fieldDocLines doc) = [].
Proof.
  unfold fieldDocLines. destruct doc as [d |]; [| reflexivity].
  destruct (nonEmpty (CommentGroup_Text d)); [| reflexivity].
  simpl. now rewrite isFieldLine_comment.
Qed.

Lemma namedExported_inv (f : Field) :
  namedExported f = true ->
  exists n, Field_Names f = [n] /\ Ident_IsExported n = true.
Proof.
  unfold namedExported. destruct (Field_Names f) as [| n [| m rest]];
    try discriminate. intros H. now exists n.
Qed.

Lemma Prints_struct_fields (Fprint : Expr -> string) (fields : list Field) :
  Forall (fun f => List.length (Field_Names f) <= 1) fields ->
  Prints (forRange fields (processField Fprint))
         (flat_map (fieldBlock Fprint) (filter namedExported fields)).
Proof.
  induction 1 as [| [doc names ty] fields Hlen _ IH]; simpl.
  - apply Writes_ret.
  - unfold namedExported at 1. simpl in Hlen |- *.
    destruct names as [| n [| m rest]]; simpl in Hlen; [| | lia].
    + change (flat_map _ _) with ([] ++ flat_map (fieldBlock Fprint)
                                         (filter namedExported fields))%list.
      eapply Writes_bind; [apply Writes_ret | exact IH].
    + destruct (Ident_IsExported n) eqn:Hexp.
      * simpl. eapply Writes_bind; [| exact IH].
        now apply Prints_processField_exported.
      * change (flat_map _ _) with ([] ++ flat_map (fieldBlock Fprint)
                                           (filter namedExported fields))%list.
        eapply Writes_bind; [| exact IH].
        unfold processField. simpl. rewrite Hexp. apply Writes_ret.
Qed.

Lemma count_field_lines (Fprint : Expr -> string) (fields : list Field) :
  Forall (fun f => namedExported f = true) fields ->
  List.length (filter isFieldLine (flat_map (fieldBlock Fprint) fields))
  = List.length fields.
Proof.
  induction 1 as [| f fields Hf _ IH]; [reflexivity |].
  simpl. rewrite filter_app, length_app, IH. f_equal.
  destruct (namedExported_inv f Hf) as [n [Hn Hexp]].
  unfold fieldBlock. rewrite Hn, filter_app, filter_isFieldLine_fieldDocLines.
  simpl. now rewrite isFieldLine_fieldLine.
Qed.

(** C3, as the program has it, for a struct whose entries carry at most one
    name each.  The block of an exported struct type is the line
    [type <Name> struct {], then, for every named field whose name is
    exported and in the order of the source, its optional comment line and
    its one field line, then the closing brace; the doc line and a blank
    line follow.  The field lines are as many as the named fields that are
    exported, and each of them carries an exported name; embedded fields
    write nothing.  The block appears as it is in what is written for the
    declaration. *)
Theorem struct_block_format :
  forall (Fprint : Expr -> string) (gen : GenDecl) (name : Ident)
         (fields : list Field),
    Ident_IsExported name = true ->
    Forall (fun f => List.length (Field_Names f) <= 1) fields ->
    let exported := filter namedExported fields in
    let body := flat_map (fieldBlock Fprint) exported in
    let block :=
      ("type " ++ Ident_Name name ++ " struct {" ++ nl)
        :: (body ++ [("}" ++ nl)%string] ++ docLines (GenDecl_Doc gen) ++ [nl])%list in
    Prints (processTypeSpec Fprint gen (structSpec name fields)) block
    /\ List.length (filter isFieldLine body) = List.length exported
    /\ Forall (fun f => exists n, Field_Names f = [n]
                                  /\ Ident_IsExported n = true) exported
    /\ (In (TypeSpec_ (structSpec name fields)) (GenDecl_Specs gen) ->
        exists before after,
          Prints (processDeclaration Fprint (GenDecl_ gen))
                 (before ++ block ++ after)%list).
Proof.
  intros Fprint gen name fields Hexp Hone exported body block.
  assert (Hall : Forall (fun f => namedExported f = true) exported).
  { apply Forall_forall. intros f Hf. now apply filter_In in Hf. }
  assert (H : Prints (processTypeSpec Fprint gen (structSpec name fields)) block).
  { unfold processTypeSpec, structSpec. simpl. rewrite Hexp.
    eapply Writes_eq.
    - eapply Writes_bind; [| apply Prints_printDoc].
      eapply Writes_bind; [apply Writes_Printf |].
      eapply Writes_bind; [apply Prints_struct_fields, Hone | apply Writes_Printf].
    - unfold block. simpl. now rewrite <- !app_assoc. }
  split; [exact H |]. split; [now apply count_field_lines |]. split.
  - eapply Forall_impl; [| exact Hall]. intros f. apply namedExported_inv.
  - intros Hin. eapply Prints_spec_In; [exact Hin | reflexivity | exact H].
Qed.

(** [PublicStruct] of testdata/sample.go: the comment and the line of
    [PublicField], nothing for [privateField]. *)
Lemma struct_block_format_witness :
  Ident_IsExported (mkIdent "PublicStruct") = true
  /\ Forall (fun f => List.length (Field_Names f) <= 1) Samples.PublicStructFields
  /\ Prints (processTypeSpec goPrint Samples.PublicStruct
               (structSpec (mkIdent "PublicStruct") Samples.PublicStructFields))
            [ "type PublicStruct struct {" ++ nl;
              tab ++ "// PublicField is an exported field" ++ nl;
              tab ++ "PublicField" ++ tab ++ "string" ++ nl;
              "}" ++ nl;
              "    PublicStruct is a sample, exported struct with documentation"
              ++ nl;
              nl ].
Proof.
  assert (H : Forall (fun f => List.length (Field_Names f) <= 1)
                     Samples.PublicStructFields).
  { repeat constructor. }
  split; [reflexivity |]. split; [exact H |].
  exact (proj1 (struct_block_format goPrint Samples.PublicStruct
                  (mkIdent "PublicStruct") Samples.PublicStructFields
                  eq_refl H)).
Defined.

(** C3, as stated, fails on
    [type Server struct { Base; Opts struct{ debug bool } }]: the struct has
    two exported fields and one field line is written, the embedded [Base]
    having none; and [debug], a field name that is not exported, stands in
    the block, inside the type of [Opts]. *)
Lemma struct_block_counts_differ :
  written (processDeclaration goPrint (GenDecl_ Samples.Server))
  = [ "type Server struct {" ++ nl;
      tab ++ "Opts" ++ tab ++ "struct{ debug bool }" ++ nl;
      "}" ++ nl;
      nl ]
  /\ exportedFieldNames Samples.ServerFields = ["Base"; "Opts"]
  /\ List.length
       (filter isFieldLine
          (written (processDeclaration goPrint (GenDecl_ Samples.Server)))) = 1
  /\ IsExported "debug" = false
  /\ In "debug" (fieldNamesIn (StructType (Some (mkFieldList Samples.ServerFields))))
  /\ In "debug"
        (identifiers
           (contents (written (processDeclaration goPrint
                                 (GenDecl_ Samples.Server))))).
Proof.
  split; [reflexivity |]. split; [reflexivity |]. split; [reflexivity |].
  split; [reflexivity |]. split; vm_compute; tauto.
Qed.

(** ** C1: the names that are rendered *)

Section Emits.

Variable P : string -> Prop.








End Emits.

Section Origins.

Variable Fprint : Expr -> string.
Variable path : string.
Variable file : File.







End Origins.




(* ================================================================= *)
(** * More about discovery *)

Lemma HasPrefix_iff (s prefix : string) :
  HasPrefix s prefix = true <-> exists r, s = prefix ++ r.
Proof.
  unfold HasPrefix. rewrite andb_true_iff, Nat.leb_le, String.eqb_eq. split.
  - intros [Hlen Hsub].
    exists (substring (String.length prefix)
                      (String.length s - String.length prefix) s).
    rewrite <- Hsub at 1. now apply substring_split.
  - intros [r ->]. rewrite length_append. split; [lia |].
    apply substring_prefix.
Qed.

Lemma append_inv_head (p a b : string) : p ++ a = p ++ b -> a = b.
Proof.
  induction p as [| c p IH]; intros H.
  - exact H.
  - apply IH. unfold append in H; fold append in H. now injection H.
Qed.

Lemma firstFailure_Dir_cons name child es :
  firstFailure (Dir ((name, child) :: es))
  = match firstFailure child with
    | Some e => Some e
    | None => firstFailure (Dir es)
    end.
Proof. reflexivity. Qed.

(** What the walk adds to the files it was given, and how it ends, do not
    depend on those files. *)
Lemma walk_frame (ignoreTests : bool) (n : Node) :
  forall path files,
    walk (findGoFiles_walkFn ignoreTests) path n files
    = ((files ++ fst (walk (findGoFiles_walkFn ignoreTests) path n []))%list,
       firstFailure n).
Proof.
  induction n as [| e | entries IH] using Node_ind_nested; intros path files.
  - simpl. unfold findGoFiles_walkFn. simpl.
    destruct (HasSuffix path ".go"); simpl; [| now rewrite app_nil_r].
    destruct (ignoreTests && HasSuffix path "_test.go"); simpl;
      [now rewrite app_nil_r | reflexivity].
  - simpl. now rewrite app_nil_r.
  - rewrite !walk_Dir. simpl.
    assert (Hloop : forall files,
               walkEntries (findGoFiles_walkFn ignoreTests) path entries files
               = ((files ++ fst (walkEntries (findGoFiles_walkFn ignoreTests)
                                   path entries []))%list,
                  firstFailure (Dir entries))).
    { clear files. induction IH as [| [name child] es Hc _ IHes]; intros files.
      - simpl. now rewrite app_nil_r.
      - rewrite !walkEntries_cons, firstFailure_Dir_cons. simpl in Hc.
        rewrite (Hc (Join path name) files), (Hc (Join path name) []).
        destruct (firstFailure child) as [e |]; [reflexivity |].
        rewrite (IHes (files ++ _)%list), (IHes ([] ++ _)%list). simpl.
        now rewrite app_assoc. }
    apply Hloop.
Qed.

Lemma firstFailure_readable (n : Node) :
  firstFailure n = None <-> readable n = true.
Proof.
  induction n as [| e | entries IH] using Node_ind_nested.
  - now split.
  - now split.
  - induction IH as [| [name child] es Hc _ IHes].
    + now split.
    + rewrite firstFailure_Dir_cons. simpl readable. simpl in Hc.
      rewrite andb_true_iff, <- Hc, <- IHes.
      destruct (firstFailure child); split; try tauto; try discriminate.
Qed.

(** X1.  Discovery fails exactly when some entry under the root cannot be
    read, and the error it returns is the error of the first such entry in
    the order of the walk, whether test files are left out or not. *)
Theorem discovery_fails_iff_unreadable :
  forall (fsys : string -> Node) (root : string) (ignoreTests : bool),
    snd (findGoFiles fsys root ignoreTests) = firstFailure (fsys root)
    /\ (snd (findGoFiles fsys root ignoreTests) = None
        <-> readable (fsys root) = true).
Proof.
  intros fsys root ignoreTests.
  assert (H : snd (findGoFiles fsys root ignoreTests) = firstFailure (fsys root)).
  { unfold findGoFiles, Walk. now rewrite walk_frame. }
  split; [exact H |]. rewrite H. apply firstFailure_readable.
Qed.

Lemma walkEntries_found_cons (b : bool) path name child es :
  fst (walkEntries (findGoFiles_walkFn b) path ((name, child) :: es) [])
  = (fst (walk (findGoFiles_walkFn b) (Join path name) child [])
     ++ match firstFailure child with
        | Some _ => []
        | None => fst (walkEntries (findGoFiles_walkFn b) path es [])
        end)%list.
Proof.
  rewrite walkEntries_cons, walk_frame. simpl.
  destruct (firstFailure child) as [e |]; simpl; [now rewrite app_nil_r |].
  change (walkEntries (findGoFiles_walkFn b) path es)
    with (fun s => walk (findGoFiles_walkFn b) path (Dir es) s).
  cbv beta. now rewrite walk_frame.
Qed.

Lemma walk_Dir_found (b : bool) path entries :
  fst (walk (findGoFiles_walkFn b) path (Dir entries) [])
  = fst (walkEntries (findGoFiles_walkFn b) path entries []).
Proof. reflexivity. Qed.

Lemma walkEntries_found_In (b : bool) path es q :
  In q (fst (walkEntries (findGoFiles_walkFn b) path es [])) ->
  exists name child,
    In (name, child) es
    /\ In q (fst (walk (findGoFiles_walkFn b) (Join path name) child [])).
Proof.
  induction es as [| [name child] es IH]; [intros [] |].
  rewrite walkEntries_found_cons, in_app_iff. intros [H | H].
  - exists name, child. split; [now left | exact H].
  - destruct (firstFailure child); [destruct H |].
    destruct (IH H) as [nm [ch [H1 H2]]]. exists nm, ch. split; [now right | exact H2].
Qed.

Lemma found_Locates (b : bool) (n : Node) :
  forall path q,
    In q (fst (walk (findGoFiles_walkFn b) path n [])) ->
    Locates path n q /\ kept b q = true.
Proof.
  induction n as [| e | entries IH] using Node_ind_nested; intros path q.
  - simpl. unfold findGoFiles_walkFn, kept. simpl.
    destruct (HasSuffix path ".go") eqn:Hgo; simpl; [| intros []].
    destruct (b && HasSuffix path "_test.go") eqn:Ht; simpl; [intros [] |].
    intros [<- | []]. split; [constructor |]. now rewrite Hgo, Ht.
  - intros [].
  - rewrite walk_Dir_found. intros H.
    apply walkEntries_found_In in H. destruct H as [name [child [Hin Hq]]].
    rewrite Forall_forall in IH. destruct (IH _ Hin _ _ Hq) as [HL Hk].
    split; [econstructor; eauto | exact Hk].
Qed.

Lemma walk_found_readable (b : bool) (n : Node) (path q : string) :
  readable n = true ->
  Locates path n q -> kept b q = true ->
  In q (fst (walk (findGoFiles_walkFn b) path n [])).
Proof.
  intros Hr HL Hk. unfold kept in Hk. apply andb_true_iff in Hk.
  destruct Hk as [Hgo Ht].
  assert (H0 : In q (fst (walk (findGoFiles_walkFn false) path n []))).
  { apply (walk_finds n Hr path []). right. now split. }
  destruct b; [| exact H0].
  rewrite (proj1 (walk_ignoreTests n path [] [] eq_refl)).
  apply filter_In. split; [exact H0 | exact Ht].
Qed.

(** X2.  Whatever the tree and the flag, also when the walk fails part way,
    every path discovery returns is the path of an entry under the root that
    is not a directory, ends in [.go] and, when test files are left out,
    does not end in [_test.go].  On a tree that can be read, every such
    path is returned. *)
Theorem discovery_returns_kept_files :
  forall (fsys : string -> Node) (root : string) (ignoreTests : bool),
    (forall q,
        In q (fst (findGoFiles fsys root ignoreTests)) ->
        Locates root (fsys root) q
        /\ HasSuffix q ".go" = true
        /\ (ignoreTests = true -> HasSuffix q "_test.go" = false))
    /\ (readable (fsys root) = true ->
        forall q,
          Locates root (fsys root) q ->
          kept ignoreTests q = true ->
          In q (fst (findGoFiles fsys root ignoreTests))).
Proof.
  intros fsys root b. split.
  - intros q Hq. destruct (found_Locates b (fsys root) root q Hq) as [HL Hk].
    unfold kept in Hk. apply andb_true_iff in Hk. destruct Hk as [Hgo Ht].
    split; [exact HL |]. split; [exact Hgo |].
    intros ->. simpl in Ht. now apply negb_true_iff in Ht.
  - intros Hr q HL Hk. now apply walk_found_readable.
Qed.

(** The tree of TestFindGoFiles under [-t]: [file1.go] is returned. *)
Lemma discovery_returns_kept_files_witness :
  readable Samples2.withTests = true
  /\ In "tmp/file1.go" (fst (findGoFiles (fun _ => Samples2.withTests) "tmp" true)).
Proof.
  split; [reflexivity |].
  apply (proj2 (discovery_returns_kept_files (fun _ => Samples2.withTests)
                  "tmp" true) eq_refl).
  - eapply Locates_below; [left; reflexivity | apply Locates_here].
  - reflexivity.
Defined.

Lemma Locates_under (path : string) (n : Node) (q : string) :
  Locates path n q ->
  (q = path /\ n = NotDir) \/ exists r, q = path ++ "/" ++ r.
Proof.
  induction 1 as [path | path entries name child q Hin HL IH].
  - now left.
  - right. destruct IH as [[-> _] | [r ->]].
    + now exists name.
    + exists (name ++ "/" ++ r). unfold Join. now rewrite !append_assoc.
Qed.



Lemma append_empty_r (s : string) : s ++ EmptyString = s.
Proof.
  induction s as [| c s IH]; [reflexivity |].
  unfold append; fold append. now rewrite IH.
Qed.

Lemma distinctNames_cons (n : string) (ns : list string) :
  distinctNames (n :: ns) = true -> ~ In n ns /\ distinctNames ns = true.
Proof.
  simpl. rewrite andb_true_iff, negb_true_iff. intros [Hn Hd].
  split; [| exact Hd]. intros Hin.
  assert (He : existsb (String.eqb n) ns = true).
  { apply existsb_exists. exists n. split; [exact Hin | apply String.eqb_refl]. }
  congruence.
Qed.

(** A path found below the entry [name] of [path] is the path of that entry
    followed by nothing or by a separator and more. *)
Lemma Locates_child (path name : string) (child : Node) (q : string) :
  Locates (Join path name) child q ->
  exists r,
    q = path ++ "/" ++ name ++ r
    /\ (r = EmptyString \/ exists r', r = "/" ++ r').
Proof.
  intros HL. destruct (Locates_under _ _ _ HL) as [[-> _] | [r0 ->]].
  - exists EmptyString. split; [| now left].
    unfold Join. now rewrite append_empty_r.
  - exists ("/" ++ r0). split; [| right; now exists r0].
    unfold Join. now rewrite !append_assoc.
Qed.

Lemma sibling_names_agree (n1 n2 r1 r2 : string) :
  hasChar "/" n1 = false -> hasChar "/" n2 = false ->
  (r1 = EmptyString \/ exists r', r1 = "/" ++ r') ->
  (r2 = EmptyString \/ exists r', r2 = "/" ++ r') ->
  n1 ++ r1 = n2 ++ r2 -> n1 = n2.
Proof.
  assert (Hone : forall a b ra rb x,
             hasChar "/" a = false ->
             (rb = EmptyString \/ exists r', rb = "/" ++ r') ->
             a = b ++ x -> rb = x ++ ra -> a = b).
  { intros a b ra rb x Ha Hrb -> Hx. destruct x as [| c x].
    - apply append_empty_r.
    - exfalso. destruct Hrb as [-> | [r' ->]]; [discriminate |].
      unfold append in Hx; fold append in Hx. injection Hx as <- _.
      rewrite hasChar_append in Ha. apply orb_false_iff in Ha.
      destruct Ha as [_ Ha]. simpl in Ha. discriminate. }
  intros H1 H2 Hr1 Hr2 Heq. apply append_eq_append in Heq.
  destruct Heq as [[x [Ha Hb]] | [x [Ha Hb]]].
  - exact (Hone n1 n2 r1 r2 x H1 Hr2 Ha Hb).
  - symmetry. exact (Hone n2 n1 r2 r1 x H2 Hr1 Ha Hb).
Qed.

Lemma walk_NoDup (b : bool) (n : Node) :
  wellNamed n = true ->
  forall path, NoDup (fst (walk (findGoFiles_walkFn b) path n [])).
Proof.
  induction n as [| e | entries IH] using Node_ind_nested; intros Hw path.
  - simpl. unfold findGoFiles_walkFn. simpl.
    destruct (HasSuffix path ".go"); simpl; [| constructor].
    destruct (b && HasSuffix path "_test.go"); simpl; repeat constructor.
    intros [].
  - constructor.
  - rewrite walk_Dir_found. simpl in Hw. apply andb_true_iff in Hw.
    destruct Hw as [Hd Hf].
    induction IH as [| [name child] es Hc _ IHes].
    + constructor.
    + simpl in Hd, Hf, Hc. apply andb_true_iff in Hf. destruct Hf as [Hh Hf].
      apply andb_true_iff in Hh. destruct Hh as [Hslash Hwc].
      apply negb_true_iff in Hslash.
      change (distinctNames (name :: map fst es) = true) in Hd.
      apply distinctNames_cons in Hd. destruct Hd as [Hnew Hd].
      rewrite walkEntries_found_cons.
      destruct (firstFailure child); [rewrite app_nil_r; now apply Hc |].
      apply NoDup_app; [now apply Hc | now apply IHes |].
      intros q Hq1 Hq2.
      apply found_Locates in Hq1. destruct Hq1 as [HL1 _].
      apply walkEntries_found_In in Hq2.
      destruct Hq2 as [name' [child' [Hin Hq2]]].
      apply found_Locates in Hq2. destruct Hq2 as [HL2 _].
      apply Locates_child in HL1. destruct HL1 as [r1 [E1 Hr1]].
      apply Locates_child in HL2. destruct HL2 as [r2 [E2 Hr2]].
      rewrite E1 in E2. apply append_inv_head in E2.
      apply (append_inv_head "/") in E2.
      assert (Hslash' : hasChar "/" name' = false).
      { rewrite forallb_forall in Hf. specialize (Hf _ Hin). simpl in Hf.
        apply andb_true_iff in Hf. now apply negb_true_iff. }
      apply Hnew. apply in_map_iff. exists (name', child'). split; [| exact Hin].
      simpl. symmetry. exact (sibling_names_agree _ _ _ _ Hslash Hslash' Hr1 Hr2 E2).
Qed.

(** X4.  Over a tree in which the names of every directory differ from one
    another and hold no separator, discovery returns no path twice: no file
    is summarized twice in a run. *)
Theorem discovery_returns_no_duplicates :
  forall (fsys : string -> Node) (root : string) (ignoreTests : bool),
    wellNamed (fsys root) = true ->
    NoDup (fst (findGoFiles fsys root ignoreTests)).
Proof.
  intros fsys root b Hw. now apply walk_NoDup.
Qed.

(** The tree of TestFindGoFiles is such a tree. *)
Lemma discovery_returns_no_duplicates_witness :
  wellNamed Samples2.withTests = true
  /\ NoDup (fst (findGoFiles (fun _ => Samples2.withTests) "tmp" false)).
Proof.
  split; [reflexivity |].
  exact (discovery_returns_no_duplicates (fun _ => Samples2.withTests) "tmp"
           false eq_refl).
Defined.

(* ================================================================= *)
(** * More about a run *)

Lemma Prints_forRange_all {A} (xs : list A) (body : A -> IO unit) :
  (forall x, In x xs -> Returns (body x)) ->
  Prints (forRange xs body) (flat_map (fun x => written (body x)) xs).
Proof.
  induction xs as [| x xs IH]; intros Hb; simpl.
  - apply Writes_ret.
  - eapply Writes_bind.
    + apply Returns_Prints, Hb. now left.
    + apply IH. intros y Hy. apply Hb. now right.
Qed.

Lemma Returns_bind_ret {A} (a : A) (k : A -> IO unit) :
  Returns (k a) -> Returns (bind (ret a) k).
Proof. intros [w H]. exists w. intros out. apply H. Qed.

Lemma Returns_processDeclaration (Fprint : Expr -> string) (decl : Decl) :
  stops decl = false -> Returns (processDeclaration Fprint decl).
Proof.
  destruct decl as [| fn | gen]; intros Hs.
  - apply Returns_ret.
  - simpl in *. unfold processFuncDecl.
    destruct (Ident_IsExported (FuncDecl_Name fn)); [| apply Returns_ret].
    simpl in Hs.
    apply Returns_bind;
      [| apply Returns_bind; [apply Returns_printDoc | apply Returns_Println]].
    destruct (FuncDecl_Recv fn) as [[[| r others]] |];
      [discriminate | | apply Returns_Printf].
    unfold index. simpl nth_error. apply Returns_bind_ret.
    destruct (nonEmpty _); apply Returns_Printf.
  - apply Returns_processGenDecl.
Qed.

Lemma Writes_processDeclaration_stops (Fprint : Expr -> string) (decl : Decl) :
  stops decl = true ->
  Writes (processDeclaration Fprint decl) []
         (Panic "runtime error: index out of range").
Proof.
  destruct decl as [| fn | gen]; try discriminate. simpl.
  rewrite andb_true_iff. intros [Hexp Hrecv].
  apply empty_receiver_list_panics; [exact Hexp |].
  destruct (FuncDecl_Recv fn) as [[[| r others]] |]; try discriminate.
  reflexivity.
Qed.

Lemma Prints_declarations (Fprint : Expr -> string) (decls : list Decl) :
  existsb stops decls = false ->
  Prints (forRange decls (processDeclaration Fprint))
         (declarationWrites Fprint decls).
Proof.
  intros Hs. apply Prints_forRange_all. intros d Hd.
  apply Returns_processDeclaration.
  destruct (stops d) eqn:E; [| reflexivity].
  assert (existsb stops decls = true) by (apply existsb_exists; eauto).
  congruence.
Qed.

Lemma Writes_summarizeFile_block (Fprint : Expr -> string)
  (ParseFile : string -> ParseResult) (path : string) (file : File) :
  ParseFile path = Parsed file ->
  existsb stops (File_Decls file) = false ->
  Writes (summarizeFile Fprint ParseFile path)
         (startMarker path
            :: (declarationWrites Fprint (File_Decls file)
                ++ [endMarker path])%list)
         (Ret None).
Proof.
  intros Hparse Hs. unfold summarizeFile. rewrite Hparse.
  change (startMarker path :: ?l) with ([startMarker path] ++ l)%list.
  eapply Writes_bind; [apply Writes_Printf |].
  eapply Writes_bind; [now apply Prints_declarations |].
  eapply Writes_eq;
    [eapply Writes_bind; [apply Writes_Printf | apply Writes_ret] |].
  reflexivity.
Qed.

(** X5.  For a file that parses and holds no exported function with an
    empty receiver list, [summarizeFile] returns no error and writes the
    start marker, then what each declaration writes, in the order of the
    file, then the end marker. *)
Theorem summarizeFile_writes_whole_block :
  forall (Fprint : Expr -> string) (ParseFile : string -> ParseResult)
         (path : string) (file : File),
    ParseFile path = Parsed file ->
    existsb stops (File_Decls file) = false ->
    Writes (summarizeFile Fprint ParseFile path)
           (startMarker path
              :: (declarationWrites Fprint (File_Decls file)
                  ++ [endMarker path])%list)
           (Ret None).
Proof.
  intros Fprint ParseFile path file. apply Writes_summarizeFile_block.
Qed.

(** The file of the method [ProcessData]: markers around its three
    writes. *)
Lemma summarizeFile_writes_whole_block_witness :
  Samples.parseSample "sample.go" = Parsed Samples.sampleFile
  /\ existsb stops (File_Decls Samples.sampleFile) = false
  /\ Writes (summarizeFile goPrint Samples.parseSample "sample.go")
       [ "<<<FILE_START>>> sample.go" ++ nl ++ nl;
         "func (s *StructWithInterface) ProcessData(input string) string" ++ nl;
         "    ProcessData processes the input string and returns a modified version"
         ++ nl ++ "It implements the PublicInterface" ++ nl;
         nl;
         "<<<FILE_END>>> sample.go" ++ nl ++ nl ]
       (Ret None).
Proof.
  split; [reflexivity |]. split; [reflexivity |].
  exact (summarizeFile_writes_whole_block goPrint Samples.parseSample
           "sample.go" Samples.sampleFile eq_refl eq_refl).
Defined.

(** X6.  An exported function with an empty receiver list stops the run in
    the middle of the block of its file: the start marker and what the
    declarations before it write are on standard output, the end marker is
    not, and neither the rest of the file nor any later file is
    summarized. *)
Theorem empty_receiver_leaves_block_open :
  forall (Fprint : Expr -> string) (ParseFile : string -> ParseResult)
         (path : string) (file : File) (before after : list Decl) (decl : Decl),
    ParseFile path = Parsed file ->
    File_Decls file = (before ++ decl :: after)%list ->
    existsb stops before = false ->
    stops decl = true ->
    let w := startMarker path :: declarationWrites Fprint before in
    Writes (summarizeFile Fprint ParseFile path) w
           (Panic "runtime error: index out of range")
    /\ (forall rest,
           Writes (summarizeAll Fprint ParseFile (path :: rest)) w
                  (Panic "runtime error: index out of range")).
Proof.
  intros Fprint ParseFile path file before after decl Hparse Hdecls Hb Hd w.
  assert (Hloop : Writes (forRange (File_Decls file) (processDeclaration Fprint))
                         (declarationWrites Fprint before)
                         (Panic "runtime error: index out of range")).
  { intros out. rewrite Hdecls, forRange_app.
    rewrite <- (app_nil_r (declarationWrites Fprint before)).
    revert out. eapply Writes_bind; [now apply Prints_declarations |].
    simpl. apply Writes_bind_panic.
    now apply Writes_processDeclaration_stops. }
  assert (H : Writes (summarizeFile Fprint ParseFile path) w
                     (Panic "runtime error: index out of range")).
  { unfold summarizeFile. rewrite Hparse. unfold w.
    change (startMarker path :: ?l) with ([startMarker path] ++ l)%list.
    eapply Writes_bind; [apply Writes_Printf |].
    apply Writes_bind_panic. exact Hloop. }
  split; [exact H |].
  intros rest. unfold summarizeAll. simpl.
  apply Writes_bind_panic. apply Writes_bind_panic. exact H.
Qed.

(** A file with a constant and then [func () Broken()]: the start marker
    and the block of the constant are written, then the run stops. *)
Lemma empty_receiver_leaves_block_open_witness :
  Samples2.parseBroken "broken.go" = Parsed Samples2.brokenFile
  /\ stops (FuncDecl_ Samples2.Broken) = true
  /\ Writes (summarizeAll goPrint Samples2.parseBroken ["broken.go"; "next.go"])
       [ "<<<FILE_START>>> broken.go" ++ nl ++ nl;
         "const Answer = 42" ++ nl;
         nl ]
       (Panic "runtime error: index out of range").
Proof.
  split; [reflexivity |]. split; [reflexivity |].
  exact (proj2 (empty_receiver_leaves_block_open goPrint Samples2.parseBroken
                  "broken.go" Samples2.brokenFile
                  [GenDecl_ Samples2.Answer] [] (FuncDecl_ Samples2.Broken)
                  eq_refl eq_refl eq_refl eq_refl)
           ["next.go"]).
Defined.


Lemma findGoFiles_result (fsys : string -> Node) (root : string) (b : bool) :
  findGoFiles fsys root b
  = (fst (findGoFiles fsys root b), firstFailure (fsys root)).
Proof.
  unfold findGoFiles, Walk. rewrite walk_frame. reflexivity.
Qed.





(** X9.  When an entry under the directory cannot be read, [main] writes
    one line, [Error finding Go files:] with the error of the first such
    entry, and exits with status 1: no file is summarized, not even those
    the walk had found before it failed. *)
Theorem main_reports_discovery_failure :
  forall (Fprint : Expr -> string) (ParseFile : string -> ParseResult)
         (fsys : string -> Node) (ignoreTests : bool)
         (dirPath : string) (rest : list string) (e : error),
    firstFailure (fsys dirPath) = Some e ->
    Writes (main Fprint ParseFile fsys ignoreTests (dirPath :: rest))
           ["Error finding Go files: " ++ e ++ nl]
           (Ret 1).
Proof.
  intros Fprint ParseFile fsys b dirPath rest e He.
  unfold main. rewrite findGoFiles_result, He.
  rewrite <- (app_nil_r [_]).
  eapply Writes_bind; [apply Writes_Printf | apply Writes_ret].
Qed.

(** A directory with [a.go] and then an entry that cannot be read: [a.go]
    was found, and is not summarized. *)
Lemma main_reports_discovery_failure_witness :
  firstFailure Samples2.denied = Some "permission denied"
  /\ fst (findGoFiles (fun _ => Samples2.denied) "src" false) = ["src/a.go"]
  /\ Writes (main goPrint Samples.parseSample (fun _ => Samples2.denied)
               false ["src"])
       ["Error finding Go files: permission denied" ++ nl]
       (Ret 1).
Proof.
  split; [reflexivity |]. split; [reflexivity |].
  exact (main_reports_discovery_failure goPrint Samples.parseSample
           (fun _ => Samples2.denied) false "src" [] "permission denied"
           eq_refl).
Defined.

(** X10.  When every entry under the directory can be read and none is a
    file that discovery keeps, [main] writes the one line that no Go files
    were found and exits with status 0.  Under [-t] this is the case of a
    directory whose Go files are all test files. *)
Theorem main_reports_no_files :
  forall (Fprint : Expr -> string) (ParseFile : string -> ParseResult)
         (fsys : string -> Node) (ignoreTests : bool)
         (dirPath : string) (rest : list string),
    readable (fsys dirPath) = true ->
    (forall q, Locates dirPath (fsys dirPath) q -> kept ignoreTests q = false) ->
    Writes (main Fprint ParseFile fsys ignoreTests (dirPath :: rest))
           ["No Go files found in the specified directory or its subdirectories"
            ++ nl]
           (Ret 0).
Proof.
  intros Fprint ParseFile fsys b dirPath rest Hr Hnone.
  unfold main. rewrite findGoFiles_result.
  rewrite (proj2 (firstFailure_readable (fsys dirPath)) Hr).
  assert (Hempty : fst (findGoFiles fsys dirPath b) = []).
  { destruct (fst (findGoFiles fsys dirPath b)) as [| q l] eqn:E;
      [reflexivity | exfalso].
    assert (Hq : In q (fst (findGoFiles fsys dirPath b)))
      by (rewrite E; now left).
    apply found_Locates in Hq. destruct Hq as [HL Hk].
    rewrite (Hnone q HL) in Hk. discriminate. }
  rewrite Hempty. simpl.
  rewrite <- (app_nil_r [_]).
  eapply Writes_bind; [apply Writes_Println | apply Writes_ret].
Qed.

(** A directory that holds one test file, under [-t]. *)
Lemma main_reports_no_files_witness :
  readable Samples2.onlyTests = true
  /\ Writes (main goPrint Samples.parseSample (fun _ => Samples2.onlyTests)
               true ["pkg"])
       ["No Go files found in the specified directory or its subdirectories"
        ++ nl]
       (Ret 0).
Proof.
  split; [reflexivity |].
  refine (main_reports_no_files goPrint Samples.parseSample
            (fun _ => Samples2.onlyTests) true "pkg" [] eq_refl _).
  intros q HL. inversion HL as [| p es name child q' Hin HL']; subst.
  destruct Hin as [[= <- <-] | []]. inversion HL'; subst. reflexivity.
Defined.

(* ================================================================= *)
(** * More about rendering *)

Lemma bind_ret_r (m : IO unit) (out : Stdout) :
  bind m (fun _ => ret tt) out = m out.
Proof. unfold bind, ret. now destruct (m out) as [o [[] | msg]]. Qed.

Lemma forRange_silent {A} (xs : list A) (body : A -> IO unit) :
  (forall x, In x xs -> forall o, body x o = (o, Ret tt)) ->
  forall out, forRange xs body out = (out, Ret tt).
Proof.
  induction xs as [| x xs IH]; intros Hb out; simpl.
  - reflexivity.
  - unfold bind. rewrite (Hb x (or_introl eq_refl)).
    apply IH. intros y Hy. apply Hb. now right.
Qed.

Lemma forRangeFrom_silent {A} (xs : list A) (body : nat -> A -> IO unit) :
  (forall j x, In x xs -> forall o, body j x o = (o, Ret tt)) ->
  forall i out, forRangeFrom i xs body out = (out, Ret tt).
Proof.
  induction xs as [| x xs IH]; intros Hb i out; simpl.
  - reflexivity.
  - unfold bind. rewrite (Hb i x (or_introl eq_refl)).
    apply IH. intros j y Hy. apply Hb. now right.
Qed.

Lemma forRange_filter {A} (keep : A -> bool) (xs : list A) (body : A -> IO unit) :
  (forall x, keep x = false -> forall o, body x o = (o, Ret tt)) ->
  forall out, forRange xs body out = forRange (filter keep xs) body out.
Proof.
  intros Hb. induction xs as [| x xs IH]; intros out; simpl.
  - reflexivity.
  - destruct (keep x) eqn:E; simpl.
    + apply bind_congr. intros _ o. apply IH.
    + unfold bind. rewrite (Hb x E). apply IH.
Qed.

Lemma spec_silent (Fprint : Expr -> string) (gen : GenDecl) (spec : Spec) :
  keepSpec spec = false ->
  forall o,
    match spec with
    | TypeSpec_ s => processTypeSpec Fprint gen s
    | ValueSpec_ s => processValueSpec Fprint gen s
    | ImportSpec _ => ret tt
    end o = (o, Ret tt).
Proof.
  destruct spec as [p | s | s]; simpl; intros Hk o.
  - reflexivity.
  - unfold processTypeSpec. now rewrite Hk.
  - unfold processValueSpec. apply forRangeFrom_silent.
    intros j name Hname o'. unfold processValueName.
    destruct (Ident_IsExported name) eqn:E; [| reflexivity].
    assert (existsb Ident_IsExported (ValueSpec_Names s) = true)
      by (apply existsb_exists; eauto).
    congruence.
Qed.

Lemma processDeclaration_pruneDecl (Fprint : Expr -> string) (decl : Decl) :
  forall out,
    processDeclaration Fprint decl out
    = forRange (pruneDecl decl) (processDeclaration Fprint) out.
Proof.
  intros out. destruct decl as [| fn | gen]; simpl.
  - reflexivity.
  - destruct (Ident_IsExported (FuncDecl_Name fn)) eqn:E; simpl.
    + now rewrite bind_ret_r.
    + unfold processFuncDecl. now rewrite E.
  - rewrite (forRange_filter keepSpec); [| apply spec_silent].
    destruct (filter keepSpec (GenDecl_Specs gen)) as [| spec specs]; simpl.
    + reflexivity.
    + now rewrite bind_ret_r.
Qed.

Lemma forRange_prune (Fprint : Expr -> string) (decls : list Decl) :
  forall out,
    forRange decls (processDeclaration Fprint) out
    = forRange (flat_map pruneDecl decls) (processDeclaration Fprint) out.
Proof.
  induction decls as [| d decls IH]; intros out; simpl.
  - reflexivity.
  - rewrite forRange_app. unfold bind at 1 2.
    rewrite processDeclaration_pruneDecl.
    destruct (forRange (pruneDecl d) (processDeclaration Fprint) out)
      as [o [[] | msg]]; [apply IH | reflexivity].
Qed.

Lemma pruneDecl_carries (decl d : Decl) :
  In d (pruneDecl decl) -> carriesExportedName d = true.
Proof.
  destruct decl as [| fn | gen]; simpl.
  - intros [].
  - destruct (Ident_IsExported (FuncDecl_Name fn)) eqn:E; [| intros []].
    intros [<- | []]. exact E.
  - destruct (filter keepSpec (GenDecl_Specs gen)) as [| spec specs] eqn:E;
      [intros [] |].
    assert (Hall : forallb keepSpec (spec :: specs) = true).
    { rewrite <- E. apply forallb_forall. intros x Hx.
      now apply filter_In in Hx. }
    intros [<- | []]. cbv [carriesExportedName GenDecl_Specs].
    now rewrite Hall.
Qed.

(** X11.  What has no exported name does not touch the summary.  Take out
    of a file the functions that are not exported, the type specifications
    that are not exported, the const/var specifications without an exported
    name, the imports and what the parser could not read as a declaration:
    every declaration left carries an exported name, and [summarizeFile]
    writes and returns for the file what it writes and returns for what is
    left. *)
Theorem summary_ignores_unexported_declarations :
  forall (Fprint : Expr -> string) (ParseFile1 ParseFile2 : string -> ParseResult)
         (path : string) (file : File),
    ParseFile1 path = Parsed file ->
    ParseFile2 path = Parsed (prune file) ->
    (forall out,
        summarizeFile Fprint ParseFile1 path out
        = summarizeFile Fprint ParseFile2 path out)
    /\ Forall (fun d => carriesExportedName d = true) (File_Decls (prune file)).
Proof.
  intros Fprint ParseFile1 ParseFile2 path file H1 H2. split.
  - intros out. unfold summarizeFile. rewrite H1, H2.
    apply bind_congr. intros _ o. apply bind_congr_l. intros o'.
    apply forRange_prune.
  - apply Forall_forall. intros d Hd. simpl in Hd.
    apply in_flat_map in Hd. destruct Hd as [decl [_ Hd]].
    now apply (pruneDecl_carries decl).
Qed.

(** The file with [privateFunction], [ProcessData], the grouped constants
    and [PublicStruct], and the same file without what is not exported. *)
Lemma summary_ignores_unexported_declarations_witness :
  Samples.parseMixed "sample.go" = Parsed Samples.mixedFile
  /\ Samples2.parsePruned "sample.go" = Parsed (prune Samples.mixedFile)
  /\ List.length (File_Decls (prune Samples.mixedFile)) = 3
  /\ forall out,
      summarizeFile goPrint Samples.parseMixed "sample.go" out
      = summarizeFile goPrint Samples2.parsePruned "sample.go" out.
Proof.
  split; [reflexivity |]. split; [reflexivity |]. split; [reflexivity |].
  exact (proj1 (summary_ignores_unexported_declarations goPrint
                  Samples.parseMixed Samples2.parsePruned "sample.go"
                  Samples.mixedFile eq_refl eq_refl)).
Defined.

(** X12.  For a file whose top-level names are all unexported (functions,
    methods, types, constants, variables), [summarizeFile] writes the start
    marker and the end marker and nothing between them. *)
Theorem no_exported_name_only_markers :
  forall (Fprint : Expr -> string) (ParseFile : string -> ParseResult)
         (path : string) (file : File),
    ParseFile path = Parsed file ->
    Forall (fun id => Ident_IsExported id = false) (topLevelNames file) ->
    Writes (summarizeFile Fprint ParseFile path)
           [startMarker path; endMarker path]
           (Ret None).
Proof.
  intros Fprint ParseFile path file Hparse Hall.
  rewrite Forall_forall in Hall.
  assert (Hsilent : forall out,
             forRange (File_Decls file) (processDeclaration Fprint) out
             = (out, Ret tt)).
  { apply forRange_silent. intros d Hd o.
    assert (Hnames : forall id,
               In id (topLevelNames (mkFile [d])) -> Ident_IsExported id = false).
    { intros id Hid. apply Hall. unfold topLevelNames in *. simpl in Hid.
      rewrite app_nil_r in Hid. apply in_flat_map. exists d. now split. }
    destruct d as [| fn | gen]; simpl.
    - reflexivity.
    - unfold processFuncDecl. rewrite (Hnames (FuncDecl_Name fn)); [reflexivity |].
      now left.
    - apply forRange_silent. intros spec Hspec o'. apply spec_silent.
      assert (Hsub : forall id,
                 In id match spec with
                       | ImportSpec _ => []
                       | TypeSpec_ s => [TypeSpec_Name s]
                       | ValueSpec_ s => ValueSpec_Names s
                       end -> Ident_IsExported id = false).
      { intros id Hid. apply Hnames. unfold topLevelNames. simpl.
        rewrite app_nil_r. apply in_flat_map. exists spec. now split. }
      destruct spec as [p | s | s]; simpl.
      + reflexivity.
      + apply Hsub. now left.
      + destruct (existsb Ident_IsExported (ValueSpec_Names s)) eqn:E;
          [| reflexivity].
        apply existsb_exists in E. destruct E as [id [Hid Hexp]].
        rewrite (Hsub id Hid) in Hexp. discriminate. }
  intros out. unfold summarizeFile. rewrite Hparse. unfold bind, Printf, ret.
  rewrite Hsilent. unfold startMarker, endMarker.
  now rewrite <- app_assoc.
Qed.

(** A file that declares [privateFunction] and [privateConst] only. *)
Lemma no_exported_name_only_markers_witness :
  Samples2.parsePrivate "internal.go" = Parsed Samples2.privateFile
  /\ Writes (summarizeFile goPrint Samples2.parsePrivate "internal.go")
       [ "<<<FILE_START>>> internal.go" ++ nl ++ nl;
         "<<<FILE_END>>> internal.go" ++ nl ++ nl ]
       (Ret None).
Proof.
  split; [reflexivity |].
  refine (no_exported_name_only_markers goPrint Samples2.parsePrivate
            "internal.go" Samples2.privateFile eq_refl _).
  repeat constructor.
Defined.

Lemma Writes_index_head {A B} (x : A) (xs : list A) (k : A -> IO B) w r :
  Writes (k x) w r -> Writes (bind (index (x :: xs) 0) k) w r.
Proof. intros H out. apply H. Qed.

Lemma TrimPrefix_append (prefix s : string) : TrimPrefix (prefix ++ s) prefix = s.
Proof.
  unfold TrimPrefix. rewrite HasPrefix_append, length_append.
  replace (String.length prefix + String.length s - String.length prefix)
    with (String.length s) by lia.
  rewrite substring_skip. apply substring_all.
Qed.

Lemma TrimPrefix_absent (s prefix : string) :
  HasPrefix s prefix = false -> TrimPrefix s prefix = s.
Proof. unfold TrimPrefix. now intros ->. Qed.

(** X13.  In the line of an exported function or method the name is
    followed at once by what the printer wrote after the keyword [func]:
    when the printed type is [func] and then the parameters and results,
    the line is [func ], the receiver in parentheses if there is one, the
    name, the parameters and results.  When the printed type does not begin
    with [func], all of it follows the name. *)
Theorem name_followed_by_parameters :
  forall (Fprint : Expr -> string) (fn : FuncDecl),
    Ident_IsExported (FuncDecl_Name fn) = true ->
    stops (FuncDecl_ fn) = false ->
    exists receiver,
      (FuncDecl_Recv fn = None -> receiver = EmptyString)
      /\ (FuncDecl_Recv fn <> None -> HasPrefix receiver "(" = true)
      /\ (forall parameters,
             Fprint (FuncDecl_Type fn) = "func" ++ parameters ->
             Prints (processDeclaration Fprint (FuncDecl_ fn))
                    (("func " ++ receiver ++ Ident_Name (FuncDecl_Name fn)
                      ++ parameters ++ nl)
                       :: (docLines (FuncDecl_Doc fn) ++ [nl])%list))
      /\ (HasPrefix (Fprint (FuncDecl_Type fn)) "func" = false ->
          Prints (processDeclaration Fprint (FuncDecl_ fn))
                 (("func " ++ receiver ++ Ident_Name (FuncDecl_Name fn)
                   ++ Fprint (FuncDecl_Type fn) ++ nl)
                    :: (docLines (FuncDecl_Doc fn) ++ [nl])%list)).
Proof.
  intros Fprint fn Hexp Hstops.
  assert (Hline : forall receiver,
             (match FuncDecl_Recv fn with
              | Some recv =>
                  exists r others inner,
                    FieldList_List recv = r :: others
                    /\ receiver = "(" ++ inner ++ ") "
                    /\ inner = (if nonEmpty match Field_Names r with
                                            | [] => EmptyString
                                            | n :: _ => Ident_Name n
                                            end
                                then match Field_Names r with
                                     | [] => EmptyString
                                     | n :: _ => Ident_Name n
                                     end ++ " " ++ Fprint (Field_Type r)
                                else Fprint (Field_Type r))
              | None => receiver = EmptyString
              end) ->
             Prints (processDeclaration Fprint (FuncDecl_ fn))
                    (("func " ++ receiver ++ Ident_Name (FuncDecl_Name fn)
                      ++ TrimPrefix (Fprint (FuncDecl_Type fn)) "func" ++ nl)
                       :: (docLines (FuncDecl_Doc fn) ++ [nl])%list)).
  { intros receiver Hrecv. simpl. unfold processFuncDecl. rewrite Hexp.
    change (?l :: ?r) with ([l] ++ r)%list.
    eapply Writes_bind; [| apply Prints_printDoc].
    destruct (FuncDecl_Recv fn) as [recv |].
    - destruct Hrecv as [r [others [inner [HL [-> ->]]]]]. rewrite HL.
      apply Writes_index_head.
      destruct (nonEmpty _);
        (eapply Writes_eq; [apply Writes_Printf |]);
        now rewrite !append_assoc.
    - subst receiver. apply Writes_Printf. }
  assert (Hex : exists receiver,
             (FuncDecl_Recv fn = None -> receiver = EmptyString)
             /\ (FuncDecl_Recv fn <> None -> HasPrefix receiver "(" = true)
             /\ Prints (processDeclaration Fprint (FuncDecl_ fn))
                  (("func " ++ receiver ++ Ident_Name (FuncDecl_Name fn)
                    ++ TrimPrefix (Fprint (FuncDecl_Type fn)) "func" ++ nl)
                     :: (docLines (FuncDecl_Doc fn) ++ [nl])%list)).
  { simpl in Hstops. rewrite Hexp in Hstops. simpl in Hstops.
    destruct (FuncDecl_Recv fn) as [[[| r others]] |] eqn:HR.
    - discriminate.
    - eexists. split; [discriminate |]. split; [intros _ |].
      + apply (HasPrefix_append "(").
      + apply Hline. exists r, others. eexists.
        split; [reflexivity |]. split; reflexivity.
    - exists EmptyString. split; [reflexivity |]. split; [congruence |].
      now apply Hline. }
  destruct Hex as [receiver [H1 [H2 H3]]]. exists receiver.
  split; [exact H1 |]. split; [exact H2 |]. split.
  - intros parameters Hp. rewrite Hp, TrimPrefix_append in H3. exact H3.
  - intros Hno. rewrite (TrimPrefix_absent _ _ Hno) in H3. exact H3.
Qed.

(** The method [ProcessData] of testdata/sample.go. *)
Lemma name_followed_by_parameters_witness :
  Ident_IsExported (FuncDecl_Name Samples.ProcessData) = true
  /\ stops (FuncDecl_ Samples.ProcessData) = false
  /\ exists receiver,
      Prints (processDeclaration goPrint (FuncDecl_ Samples.ProcessData))
        (("func " ++ receiver ++ "ProcessData" ++ "(input string) string" ++ nl)
           :: (docLines (FuncDecl_Doc Samples.ProcessData) ++ [nl])%list).
Proof.
  split; [reflexivity |]. split; [reflexivity |].
  destruct (name_followed_by_parameters goPrint Samples.ProcessData
              eq_refl eq_refl) as [receiver [_ [_ [H _]]]].
  exists receiver. exact (H "(input string) string" eq_refl).
Defined.

Lemma ends_blank_app (l1 l2 : list string) :
  (l2 = [] \/ exists w, l2 = (w ++ [nl])%list) ->
  (l1 = [] \/ exists w, l1 = (w ++ [nl])%list) ->
  (l1 ++ l2 = [])%list \/ exists w, (l1 ++ l2)%list = (w ++ [nl])%list.
Proof.
  intros [-> | [w2 ->]] H1.
  - rewrite app_nil_r. exact H1.
  - right. exists (l1 ++ w2)%list. now rewrite app_assoc.
Qed.

Lemma ends_blank_flat_map {A} (f : A -> list string) (xs : list A) :
  (forall x, f x = [] \/ exists w, f x = (w ++ [nl])%list) ->
  flat_map f xs = [] \/ exists w, flat_map f xs = (w ++ [nl])%list.
Proof.
  intros Hf. induction xs as [| x xs IH]; simpl; [now left |].
  now apply ends_blank_app.
Qed.

Lemma written_rendered_block (m : IO unit) (doc : option CommentGroup) :
  Returns m ->
  written (m ;;; printDoc (docText doc) ;;; Println EmptyString)
  = ((written m ++ docLines doc) ++ [nl])%list.
Proof.
  intros Hm.
  assert (H : Prints (m ;;; printDoc (docText doc) ;;; Println EmptyString)
                     (written m ++ docLines doc ++ [nl])%list).
  { eapply Writes_bind; [now apply Returns_Prints | apply Prints_printDoc]. }
  destruct (Prints_written _ _ _ H) as [-> _]. now rewrite app_assoc.
Qed.

(** X18.  Every block ends with a blank line: what [processDeclaration]
    writes for a declaration it does not stop on is nothing at all, or ends
    with the write of a lone newline. *)
Theorem declaration_block_ends_blank :
  forall (Fprint : Expr -> string) (decl : Decl),
    stops decl = false ->
    Prints (processDeclaration Fprint decl)
           (written (processDeclaration Fprint decl))
    /\ (written (processDeclaration Fprint decl) = []
        \/ exists w,
            written (processDeclaration Fprint decl) = (w ++ [nl])%list).
Proof.
  intros Fprint decl Hs.
  split; [now apply Returns_Prints, Returns_processDeclaration |].
  destruct decl as [| fn | gen].
  - now left.
  - simpl in *. unfold processFuncDecl.
    destruct (Ident_IsExported (FuncDecl_Name fn)); [| now left].
    right. simpl in Hs. rewrite written_rendered_block; [eauto |].
    destruct (FuncDecl_Recv fn) as [[[| r others]] |];
      [discriminate | | apply Returns_Printf].
    unfold index. simpl nth_error. apply Returns_bind_ret.
    destruct (nonEmpty _); apply Returns_Printf.
  - simpl.
    destruct (Prints_written _ _ _
                (Prints_forRange_all (GenDecl_Specs gen) _
                   (fun spec _ =>
                      match spec as s
                            return Returns match s with
                                           | TypeSpec_ s0 => processTypeSpec Fprint gen s0
                                           | ValueSpec_ s0 => processValueSpec Fprint gen s0
                                           | ImportSpec _ => ret tt
                                           end
                      with
                      | ImportSpec _ => Returns_ret
                      | TypeSpec_ s => Returns_processTypeSpec Fprint gen s
                      | ValueSpec_ s => Returns_processValueSpec Fprint gen s
                      end))) as [-> _].
    apply ends_blank_flat_map. intros [p | s | s].
    + now left.
    + unfold processTypeSpec.
      destruct (Ident_IsExported (TypeSpec_Name s)); [| now left].
      right. rewrite written_rendered_block; [eauto |].
      destruct (TypeSpec_Type s); try apply Returns_Printf.
      destruct Fields; [| apply Returns_Printf].
      apply Returns_bind; [apply Returns_Printf |].
      apply Returns_bind; [| apply Returns_Printf].
      apply Returns_forRange. intros ?. apply Returns_processField.
    + unfold processValueSpec.
      assert (Hnames : forall i,
                 written (forRangeFrom i (ValueSpec_Names s)
                            (processValueName Fprint gen s)) = []
                 \/ exists w,
                     written (forRangeFrom i (ValueSpec_Names s)
                                (processValueName Fprint gen s))
                     = (w ++ [nl])%list).
      { induction (ValueSpec_Names s) as [| name names IH]; intros i;
          [now left |].
        simpl.
        assert (Hb : Prints (processValueName Fprint gen s i name ;;;
                             forRangeFrom (S i) names
                               (processValueName Fprint gen s))
                            (written (processValueName Fprint gen s i name)
                             ++ written (forRangeFrom (S i) names
                                           (processValueName Fprint gen s)))%list).
        { eapply Writes_bind.
          - apply Returns_Prints, Returns_processValueName.
          - apply Returns_Prints, Returns_forRangeFrom.
            intros; apply Returns_processValueName. }
        destruct (Prints_written _ _ _ Hb) as [-> _].
        apply ends_blank_app; [apply IH |].
        unfold processValueName.
        destruct (Ident_IsExported name); [| now left].
        right. rewrite written_rendered_block; [eauto | apply Returns_Printf]. }
      apply Hnames.
Qed.

(** The grouped constants of testdata/sample.go: six writes, the last one
    a newline. *)
Lemma declaration_block_ends_blank_witness :
  stops (GenDecl_ Samples.MultipleConsts) = false
  /\ List.length (written (processDeclaration goPrint
                             (GenDecl_ Samples.MultipleConsts))) = 6
  /\ exists w,
      written (processDeclaration goPrint (GenDecl_ Samples.MultipleConsts))
      = (w ++ [nl])%list.
Proof.
  split; [reflexivity |]. split; [reflexivity |].
  destruct (proj2 (declaration_block_ends_blank goPrint
                     (GenDecl_ Samples.MultipleConsts) eq_refl)) as [H | H].
  - discriminate H.
  - exact H.
Defined.

(* ================================================================= *)
(** * The earlier variant *)

Lemma forRange_ext_In {A} (xs : list A) (f g : A -> IO unit) :
  (forall x, In x xs -> forall o, f x o = g x o) ->
  forall out, forRange xs f out = forRange xs g out.
Proof.
  induction xs as [| x xs IH]; intros H out; simpl.
  - reflexivity.
  - unfold bind. rewrite (H x (or_introl eq_refl)).
    destruct (g x out) as [o [[] | msg]]; [| reflexivity].
    apply IH. intros y Hy. apply H. now right.
Qed.

Lemma Returns_Legacy_processDeclaration (Fprint : Expr -> string)
  (FprintFields : FieldList -> string) (decl : Decl) :
  Returns (Legacy.processDeclaration Fprint FprintFields decl).
Proof.
  destruct decl as [| fn | gen]; simpl.
  - apply Returns_ret.
  - unfold Legacy.processFuncDecl.
    destruct (Ident_IsExported (FuncDecl_Name fn)); [| apply Returns_ret].
    apply Returns_bind;
      [| apply Returns_bind; [apply Returns_printDoc | apply Returns_Println]].
    destruct (FuncDecl_Recv fn); apply Returns_Printf.
  - apply (Returns_processGenDecl Fprint gen).
Qed.

(** X14.  The earlier variant never stops on a declaration: whatever the
    file, [summarizeFile] returns, with the error of the parser or with
    none, also for a function with an empty receiver list, which the
    receiver list being printed whole makes harmless. *)
Theorem legacy_summarizeFile_returns :
  forall (Fprint : Expr -> string) (FprintFields : FieldList -> string)
         (ParseFile : string -> ParseResult) (path : string),
    exists w err,
      Writes (Legacy.summarizeFile Fprint FprintFields ParseFile path) w (Ret err)
      /\ (err = None <-> exists file, ParseFile path = Parsed file).
Proof.
  intros Fprint FprintFields ParseFile path. unfold Legacy.summarizeFile.
  destruct (ParseFile path) as [file | e].
  - eexists. exists None. split.
    + eapply Writes_bind; [apply Writes_Printf |].
      eapply Writes_bind.
      * apply Prints_forRange_all. intros d _.
        apply Returns_Legacy_processDeclaration.
      * eapply Writes_bind; [apply Writes_Printf | apply Writes_ret].
    + split; [eauto | reflexivity].
  - exists [], (Some ("error parsing " ++ path ++ ": " ++ e)).
    split; [apply Writes_ret |].
    split; [discriminate | intros [file H]; discriminate].
Qed.

(** X15.  The two variants render alike everything but functions and
    methods: for a file that parses and declares no exported function or
    method, [summarizeFile] of the earlier variant writes and returns what
    [summarizeFile] of the variant with the flag does. *)
Theorem legacy_agrees_without_functions :
  forall (Fprint : Expr -> string) (FprintFields : FieldList -> string)
         (ParseFile : string -> ParseResult) (path : string) (file : File),
    ParseFile path = Parsed file ->
    (forall fn,
        In (FuncDecl_ fn) (File_Decls file) ->
        Ident_IsExported (FuncDecl_Name fn) = false) ->
    forall out,
      Legacy.summarizeFile Fprint FprintFields ParseFile path out
      = summarizeFile Fprint ParseFile path out.
Proof.
  intros Fprint FprintFields ParseFile path file Hparse Hnone out.
  unfold Legacy.summarizeFile, summarizeFile. rewrite Hparse.
  apply bind_congr. intros _ o. apply bind_congr_l. intros o'.
  apply forRange_ext_In. intros d Hd o''.
  destruct d as [| fn | gen]; try reflexivity.
  simpl. unfold Legacy.processFuncDecl, processFuncDecl.
  now rewrite (Hnone fn Hd).
Qed.

(** A file with the grouped constants and [PublicStruct]. *)
Lemma legacy_agrees_without_functions_witness :
  Samples2.parseValues "values.go" = Parsed Samples2.valuesFile
  /\ forall out,
      Legacy.summarizeFile goPrint (fun _ => EmptyString) Samples2.parseValues
        "values.go" out
      = summarizeFile goPrint Samples2.parseValues "values.go" out.
Proof.
  split; [reflexivity |].
  refine (legacy_agrees_without_functions goPrint (fun _ => EmptyString)
            Samples2.parseValues "values.go" Samples2.valuesFile eq_refl _).
  intros fn [H | [H | []]]; discriminate H.
Defined.

(** X16.  In the earlier variant the printed type goes into the line of an
    exported function with its keyword: when the printed type is [func] and
    then the parameters, the line of a function is [func <Name>func] and the
    parameters, and the line of a method is [method ], the printed receiver
    list, the name, a blank, [func] and the parameters; the variant with the
    flag writes [func <Name>] and the parameters for the same function. *)
Theorem legacy_line_keeps_keyword :
  forall (Fprint : Expr -> string) (FprintFields : FieldList -> string)
         (fn : FuncDecl) (parameters : string),
    Ident_IsExported (FuncDecl_Name fn) = true ->
    Fprint (FuncDecl_Type fn) = "func" ++ parameters ->
    let rest := (docLines (FuncDecl_Doc fn) ++ [nl])%list in
    (FuncDecl_Recv fn = None ->
     Prints (Legacy.processDeclaration Fprint FprintFields (FuncDecl_ fn))
            (("func " ++ Ident_Name (FuncDecl_Name fn) ++ "func" ++ parameters
              ++ nl) :: rest)
     /\ Prints (processDeclaration Fprint (FuncDecl_ fn))
               (("func " ++ Ident_Name (FuncDecl_Name fn) ++ parameters ++ nl)
                  :: rest))
    /\ (forall recv,
           FuncDecl_Recv fn = Some recv ->
           Prints (Legacy.processDeclaration Fprint FprintFields (FuncDecl_ fn))
                  (("method " ++ FprintFields recv
                    ++ Ident_Name (FuncDecl_Name fn) ++ " " ++ "func"
                    ++ parameters ++ nl) :: rest)).
Proof.
  intros Fprint FprintFields fn parameters Hexp Hp rest. split.
  - intros HR. split.
    + simpl. unfold Legacy.processFuncDecl. rewrite Hexp, HR, Hp.
      change (?l :: ?r) with ([l] ++ r)%list.
      eapply Writes_bind; [| apply Prints_printDoc].
      eapply Writes_eq; [apply Writes_Printf |]. now rewrite !append_assoc.
    + simpl. unfold processFuncDecl. rewrite Hexp, HR, Hp, TrimPrefix_append.
      change (?l :: ?r) with ([l] ++ r)%list.
      eapply Writes_bind; [apply Writes_Printf | apply Prints_printDoc].
  - intros recv HR. simpl. unfold Legacy.processFuncDecl.
    rewrite Hexp, HR, Hp.
    change (?l :: ?r) with ([l] ++ r)%list.
    eapply Writes_bind; [| apply Prints_printDoc].
    eapply Writes_eq; [apply Writes_Printf |]. now rewrite !append_assoc.
Qed.

(** [PublicFunction] of testdata/sample.go under the two variants. *)
Lemma legacy_line_keeps_keyword_witness :
  Ident_IsExported (FuncDecl_Name Samples2.PublicFunction) = true
  /\ Prints (Legacy.processDeclaration goPrint (fun _ => EmptyString)
               (FuncDecl_ Samples2.PublicFunction))
       [ "func PublicFunctionfunc(input string, count int) (string, error)" ++ nl;
         nl ]
  /\ Prints (processDeclaration goPrint (FuncDecl_ Samples2.PublicFunction))
       [ "func PublicFunction(input string, count int) (string, error)" ++ nl;
         nl ].
Proof.
  split; [reflexivity |].
  exact (proj1 (legacy_line_keeps_keyword goPrint (fun _ => EmptyString)
                  Samples2.PublicFunction
                  "(input string, count int) (string, error)"
                  eq_refl eq_refl) eq_refl).
Defined.

(** X17.  Discovery in the earlier variant is discovery with the flag
    unset: it returns what [findGoFiles(root, false)] returns, so every path
    it returns is the path of an entry under the root that is not a
    directory and ends in [.go], test files included, and on a tree that
    can be read it returns every such path. *)
Theorem legacy_discovery :
  forall (fsys : string -> Node) (root : string),
    Legacy.findGoFiles fsys root = findGoFiles fsys root false
    /\ (forall q,
           In q (fst (Legacy.findGoFiles fsys root)) ->
           Locates root (fsys root) q /\ HasSuffix q ".go" = true)
    /\ (readable (fsys root) = true ->
        forall q,
          Locates root (fsys root) q ->
          HasSuffix q ".go" = true ->
          In q (fst (Legacy.findGoFiles fsys root))).
Proof.
  intros fsys root.
  assert (H : Legacy.findGoFiles fsys root = findGoFiles fsys root false)
    by reflexivity.
  split; [exact H |]. rewrite H. split.
  - intros q Hq. apply found_Locates in Hq. destruct Hq as [HL Hk].
    split; [exact HL |]. unfold kept in Hk. simpl in Hk.
    now rewrite andb_true_r in Hk.
  - intros Hr q HL Hgo. apply walk_found_readable; try assumption.
    unfold kept. simpl. now rewrite Hgo.
Qed.

(** The tree of TestFindGoFiles: a test file is returned. *)
Lemma legacy_discovery_witness :
  readable Samples2.withTests = true
  /\ In "tmp/file3_test.go"
        (fst (Legacy.findGoFiles (fun _ => Samples2.withTests) "tmp")).
Proof.
  split; [reflexivity |].
  apply (proj2 (proj2 (legacy_discovery (fun _ => Samples2.withTests) "tmp"))
           eq_refl).
  - eapply Locates_below; [right; right; left; reflexivity | apply Locates_here].
  - reflexivity.
Defined.
